(** * my_blue_app: framing codec, connection lifecycle and data channel

    A shallow embedding of the core of the Bluetooth manager:

    - [src/core/data_handler.py]  ([DataHandler]: checksum, [pack_data],
      [unpack_data], [send], [receive], [start_listening], [stop_listening]);
    - [src/core/connector.py]     ([Connector]: [connect], [disconnect],
      [_do_connect], [_do_disconnect], [is_connected]);
    - [src/core/bluetooth_manager.py] ([BluetoothManager.send_data]).

    Python values are modelled as follows.  A [bytes] object is a list of
    [byte]; a Python [int] is a [Z]; a [dict] keyed by MAC address is a
    [gmap string _]; [None] in an [Optional] result is [None].  A Python
    call either returns a value or raises an exception ([outcome]); a
    [try ... except Exception] block is [try_except].  Calls to the logger
    are left out: the logger is a collaborator that only prints. *)

From Stdlib Require Import ZArith List Lia Bool.
From Stdlib Require Import Strings.Byte.
From stdpp Require Import base option list gmap strings.

Local Open Scope Z_scope.

(** ** Python semantics used by the modelled code *)

Module Py.

(** The exceptions the modelled code can meet.  All of them derive from
    [Exception], so an [except Exception] handler catches every one. *)
Inductive exn : Type :=
| IndexError
| OverflowError
| ValueError
| NotImplementedError
| QueueEmpty
| TransportError
| CallbackError
| TypeError.

Inductive outcome (A : Type) : Type :=
| Returns (a : A)
| Raises (e : exn).
Arguments Returns {A} a.
Arguments Raises {A} e.

Definition bind {A B} (c : outcome A) (k : A -> outcome B) : outcome B :=
  match c with
  | Returns a => k a
  | Raises e => Raises e
  end.

(** [try: body except Exception as e: handler] *)
Definition try_except {A} (body : outcome A) (handler : exn -> outcome A)
  : outcome A :=
  match body with
  | Returns a => Returns a
  | Raises e => handler e
  end.

Abbreviation bytes := (list byte).

(** [len(s)] *)
Definition len {A} (s : list A) : Z := Z.of_nat (length s).

(** The integer a byte stands for, [0 <= b < 256]. *)
Definition byte_val (b : byte) : Z := Z.of_N (Byte.to_N b).

(** The byte of a value known to be below 256 (its low eight bits). *)
Definition low_byte (n : Z) : byte :=
  default x00 (Byte.of_N (Z.to_N (n mod 256))).

(** Storing an [int] into a [bytearray] ([bytearray.append(n)]):
    [ValueError: byte must be in range(0, 256)] outside the range. *)
Definition int_to_byte (n : Z) : outcome byte :=
  if (0 <=? n) && (n <? 256) then Returns (low_byte n)
  else Raises ValueError.

(** [sum(data)] over a bytes object. *)
Definition sum (data : bytes) : Z :=
  fold_left (fun acc b => acc + byte_val b) data 0.

(** Big-endian digits in base 256, most significant first. *)
Fixpoint be_digits (width : nat) (n : Z) : bytes :=
  match width with
  | O => []
  | S w => be_digits w (n / 256) ++ [low_byte n]
  end.

(** [n.to_bytes(width, "big")]: [OverflowError] when [n] is negative or
    does not fit in [width] bytes. *)
Definition to_bytes (n : Z) (width : nat) : outcome bytes :=
  if (n <? 0) || (256 ^ Z.of_nat width <=? n) then Raises OverflowError
  else Returns (be_digits width n).

(** [int.from_bytes(s, "big")] *)
Definition from_bytes (s : bytes) : Z :=
  fold_left (fun acc b => acc * 256 + byte_val b) s 0.

(** Normalisation of one slice bound: a negative bound counts from the
    end, and the result is clamped into [0 .. len]. *)
Definition slice_bound (n i : Z) : Z :=
  let j := if i <? 0 then i + n else i in
  Z.max 0 (Z.min n j).

(** [s[start:stop]]; a missing bound is [None].  Never raises. *)
Definition slice {A} (s : list A) (start stop : option Z) : list A :=
  let n := len s in
  let a := match start with Some i => slice_bound n i | None => 0 end in
  let b := match stop with Some i => slice_bound n i | None => n end in
  take (Z.to_nat (b - a)) (drop (Z.to_nat a) s).

(** [s[i]] on a bytes object: the integer at index [i], counting from
    the end when [i] is negative; [IndexError] out of range. *)
Definition getitem (s : bytes) (i : Z) : outcome Z :=
  let n := len s in
  let j := if i <? 0 then i + n else i in
  if (j <? 0) || (n <=? j) then Raises IndexError
  else match s !! Z.to_nat j with
       | Some b => Returns (byte_val b)
       | None => Raises IndexError
       end.

End Py.

Import Py.

(** Sequencing of calls that may raise, in stdpp's monad notation
    [x ← c; k]. *)
#[global] Instance outcome_bind : MBind outcome := fun _ _ k c => Py.bind c k.
#[global] Instance outcome_ret : MRet outcome := fun _ a => Returns a.

(** ** The framing codec of [DataHandler] *)

Module Codec.

(** [DataHandler.calculate_checksum]: [sum(data) & 0xFF]. *)
Definition calculate_checksum (data : bytes) : Z :=
  Z.land (Py.sum data) 255.

(** [DataHandler.pack_data(data, include_checksum, include_length)]:
    the packet is built up in a [bytearray]. *)
Definition pack_data (data : bytes) (include_checksum include_length : bool)
  : outcome bytes :=
  let packet : bytes := [] in
  packet ← (if include_length
             then prefix ← to_bytes (len data) 4; Returns (packet ++ prefix)
             else Returns packet);
  let packet := packet ++ data in
  packet ← (if include_checksum
             then (let checksum := calculate_checksum data in
                   c ← int_to_byte checksum; Returns (packet ++ [c]))
             else Returns packet);
  Returns packet.

(** [DataHandler.unpack_data(packet, has_checksum, has_length)].  The
    result is [Optional[bytes]]; the whole body sits in
    [try ... except Exception: return None]. *)
Definition unpack_data (packet : bytes) (has_checksum has_length : bool)
  : outcome (option bytes) :=
  try_except
    (if has_length && (len packet <? 4) then Returns None
     else
       let '(length, offset) :=
         if has_length
         then (from_bytes (slice packet None (Some 4)), 4)
         else (len packet, 0) in
       if has_checksum then
         checksum ← getitem packet (-1);
         let data := slice packet (Some offset) (Some (-1)) in
         if negb (calculate_checksum data =? checksum) then Returns None
         else Returns (Some data)
       else
         let data := slice packet (Some offset) (Some (offset + length)) in
         Returns (Some data))
    (fun _ => Returns None).

(** The frame [pack_data(P, ...)] with byte [b] put in place of its last
    byte: [frame[:-1] + bytes([b])]. *)
Definition replace_checksum (frame : bytes) (b : byte) : bytes :=
  slice frame None (Some (-1)) ++ [b].

(** The number of bytes the fixed fields of a frame take. *)
Definition fixed_fields_size (has_checksum has_length : bool) : Z :=
  (if has_length then 4 else 0) + (if has_checksum then 1 else 0).

(** The length field of a frame, when present. *)
Definition length_field (data : bytes) (include_length : bool) : bytes :=
  if include_length then be_digits 4 (len data) else [].

(** The trailing checksum byte of a frame, when present. *)
Definition checksum_field (data : bytes) (include_checksum : bool) : bytes :=
  if include_checksum then [low_byte (calculate_checksum data)] else [].

(** A payload of [2^32] zero bytes: one byte more than a 4-byte length
    field can count. *)
Definition four_gib_payload : bytes := replicate (Z.to_nat (2 ^ 32)) x00.

(** [unpack_data(pack_data(P, c, l), has_checksum=c, has_length=l)] *)
Definition unpack_packed (data : bytes) (c l : bool) : outcome (option bytes) :=
  frame ← pack_data data c l; unpack_data frame c l.

(** One round of the inner loop of [calculate_crc16]:
    [if crc & 0x0001: crc = (crc >> 1) ^ 0xA001 else: crc >>= 1]. *)
Definition crc_shift (crc : Z) : Z :=
  if negb (Z.land crc 1 =? 0) then Z.lxor (Z.shiftr crc 1) 40961
  else Z.shiftr crc 1.

(** The body of the outer loop: [crc ^= byte], then eight rounds. *)
Definition crc_byte (crc : Z) (b : byte) : Z :=
  Nat.iter 8 crc_shift (Z.lxor crc (byte_val b)).

(** [DataHandler.calculate_crc16]: the register starts at [0xFFFF]. *)
Definition calculate_crc16 (data : bytes) : Z :=
  fold_left crc_byte data 65535.

(** The digit [bytes.hex()] writes for a value below 16. *)
Definition hex_digit (n : Z) : Ascii.ascii :=
  default (Ascii.ascii_of_nat 48)
    (String.get (Z.to_nat n) "0123456789abcdef").

(** [DataHandler.encode_hex]: [data.hex()], two lower-case digits a byte. *)
Fixpoint encode_hex (data : bytes) : string :=
  match data with
  | [] => String.EmptyString
  | b :: rest =>
      String.String (hex_digit (byte_val b / 16))
        (String.String (hex_digit (byte_val b mod 16)) (encode_hex rest))
  end.

(** The value of a hexadecimal digit, of either case. *)
Definition digit_value (c : Ascii.ascii) : option Z :=
  let n := Z.of_N (Ascii.N_of_ascii c) in
  if (48 <=? n) && (n <=? 57) then Some (n - 48)
  else if (97 <=? n) && (n <=? 102) then Some (n - 87)
  else if (65 <=? n) && (n <=? 70) then Some (n - 55)
  else None.

(** ASCII white space: space, tab, line feed, vertical tab, form feed,
    carriage return. *)
Definition is_space (c : Ascii.ascii) : bool :=
  let n := Z.of_N (Ascii.N_of_ascii c) in
  (n =? 32) || ((9 <=? n) && (n <=? 13)).

(** [DataHandler.decode_hex]: [bytes.fromhex(hex_string)].  White space is
    skipped before a pair of digits; anything else that is not a pair of
    hexadecimal digits raises [ValueError]. *)
Fixpoint decode_hex (hex_string : string) : outcome bytes :=
  match hex_string with
  | String.EmptyString => Returns []
  | String.String c rest =>
      if is_space c then decode_hex rest
      else
        match digit_value c, rest with
        | Some top, String.String c' rest' =>
            match digit_value c' with
            | Some bot =>
                tail ← decode_hex rest';
                Returns (low_byte (top * 16 + bot) :: tail)
            | None => Raises ValueError
            end
        | _, _ => Raises ValueError
        end
  end.

End Codec.

Import Codec.

(** ** The connection lifecycle manager ([Connector]) *)

Module Connector.

(** A connection object, as far as the connector looks at it: its truth
    value ([if connection:]), which of the two closing methods it has
    ([hasattr]), and whether calling that method raises. *)
Record connection : Type := {
  conn_id : nat;
  truthy : bool;
  has_close : bool;
  has_disconnect : bool;
  close_raises : bool;
}.

(** [platform.system()] *)
Inductive platform : Type :=
| Linux
| Windows
| Darwin
| OtherSystem (name : string).

(** What the connector does to the outside world, oldest first. *)
Inductive event : Type :=
| Open (device_mac : string) (port : option Z)   (* one [_do_connect] call *)
| Sleep (seconds : Z)                            (* [time.sleep] has waited *)
| Close (c : connection)                         (* [connection.close()] *)
| Disconnect (c : connection).                   (* [connection.disconnect()] *)

Definition is_open (e : event) : bool :=
  match e with Open _ _ => true | _ => false end.

Definition is_closing (e : event) : bool :=
  match e with Close _ | Disconnect _ => true | _ => false end.

(** The number of open attempts and of closing calls in a log. *)
Definition opens (log : list event) : nat := length (filter is_open log).
Definition closings (log : list event) : nat := length (filter is_closing log).

(** The platform transport.  The three back-ends are stubs in the source
    (each returns [None]); they stand for the radio stack, so they are
    taken as given: the answer of a back-end may depend on how many open
    attempts came before, on the address and on the port. *)
Record transport : Type := {
  system : platform;
  _connect_linux : nat -> string -> option Z -> outcome (option connection);
  _connect_windows : nat -> string -> option Z -> outcome (option connection);
  _connect_macos : nat -> string -> option Z -> outcome (option connection);
}.

(** The value of [retry_delay] as [time.sleep] takes it.  The value comes
    out of the configuration dict unchecked: it is a number of seconds, of
    either sign, or something that is no number at all. *)
Inductive delay : Type :=
| Seconds (s : Z)
| NotANumber.

(** The configuration read by [__init__]: [retry_count] (default 3) and
    [retry_delay], what to wait between attempts (default 1). *)
Record config : Type := {
  _retry_count : Z;
  _retry_delay : delay;
}.

Definition default_config : config :=
  {| _retry_count := 3; _retry_delay := Seconds 1 |}.

(** The connector object: the [_connections] dict and the log of its
    calls to the outside. *)
Record state : Type := {
  _connections : gmap string connection;
  io : list event;
}.

Definition init : state := {| _connections := ∅; io := [] |}.

Definition record_event (e : event) (st : state) : state :=
  {| _connections := _connections st; io := io st ++ [e] |}.

(** [device_mac in self._connections] *)
Definition is_connected (device_mac : string) (st : state) : bool :=
  bool_decide (is_Some (_connections st !! device_mac)).

(** The dispatch of [Connector._do_connect] on [platform.system()]:
    the answer of the open attempt number [n] (counting from 0). *)
Definition open_primitive (tr : transport) (n : nat) (device_mac : string)
    (port : option Z) : outcome (option connection) :=
  match system tr with
  | Linux => _connect_linux tr n device_mac port
  | Windows => _connect_windows tr n device_mac port
  | Darwin => _connect_macos tr n device_mac port
  | OtherSystem _ => Raises NotImplementedError
  end.

(** [Connector._do_connect(device_mac, port)]: one open attempt. *)
Definition _do_connect (tr : transport) (device_mac : string)
    (port : option Z) (st : state) : outcome (option connection) * state :=
  (open_primitive tr (opens (io st)) device_mac port,
   record_event (Open device_mac port) st).

(** What the body of the [try] in [connect] makes of an open attempt:
    the connection to install, if the attempt returned a true value;
    nothing if it returned [None] or a false value, or raised (the
    exception is caught and logged). *)
Definition established (r : outcome (option connection))
  : option connection :=
  match r with
  | Returns (Some connection) =>
      if truthy connection then Some connection else None
  | Returns None => None
  | Raises _ => None
  end.


(** What [time.sleep] raises on a delay, if anything: [ValueError] on a
    negative number, [TypeError] on what is no number. *)
Definition sleep_error (d : delay) : option exn :=
  match d with
  | Seconds s => if s <? 0 then Some ValueError else None
  | NotANumber => Some TypeError
  end.

(** [time.sleep(d)]: the wait is logged when it takes place. *)
Definition time_sleep (d : delay) (st : state) : outcome unit * state :=
  match d with
  | Seconds s =>
      if s <? 0 then (Raises ValueError, st)
      else (Returns tt, record_event (Sleep s) st)
  | NotANumber => (Raises TypeError, st)
  end.

(** [range(n)] *)
Definition range (n : Z) : list Z := map Z.of_nat (seq 0 (Z.to_nat n)).

(** The [for attempt in range(self._retry_count)] loop of [connect], over
    the attempts still to make.  The open attempt is inside the [try]; the
    wait that follows a failed attempt is after it, so what [time.sleep]
    raises leaves [connect]. *)
Fixpoint connect_loop (cfg : config) (tr : transport) (device_mac : string)
    (port : option Z) (attempts : list Z) (st : state)
  : outcome bool * state :=
  match attempts with
  | [] => (Returns false, st)
  | attempt :: rest =>
      let '(r, st) := _do_connect tr device_mac port st in
      match established r with
      | Some connection =>
          (Returns true,
           {| _connections := <[device_mac := connection]> (_connections st);
              io := io st |})
      | None =>
          if attempt <? _retry_count cfg - 1 then
            let '(w, st) := time_sleep (_retry_delay cfg) st in
            match w with
            | Returns _ => connect_loop cfg tr device_mac port rest st
            | Raises e => (Raises e, st)
            end
          else connect_loop cfg tr device_mac port rest st
      end
  end.

(** [Connector.connect(device_mac, port)] *)
Definition connect (cfg : config) (tr : transport) (device_mac : string)
    (port : option Z) (st : state) : outcome bool * state :=
  if is_connected device_mac st then (Returns true, st)
  else connect_loop cfg tr device_mac port (range (_retry_count cfg)) st.

(** A call of the closing method of a connection object. *)
Definition call_closing (c : connection) (e : event) (st : state)
  : outcome unit * state :=
  (if close_raises c then Raises TransportError else Returns tt,
   record_event e st).

(** [Connector._do_disconnect(connection)] *)
Definition _do_disconnect (c : connection) (st : state)
  : outcome unit * state :=
  let '(r, st) :=
    if has_close c then call_closing c (Close c) st
    else if has_disconnect c then call_closing c (Disconnect c) st
    else (Returns tt, st) in
  (try_except r (fun _ => Returns tt), st).

(** [Connector.disconnect(device_mac)] *)
Definition disconnect (device_mac : string) (st : state)
  : outcome bool * state :=
  if negb (is_connected device_mac st) then (Returns false, st)
  else
    let connection := _connections st !! device_mac in
    let st := {| _connections := delete device_mac (_connections st);
                 io := io st |} in
    let '(r, st) :=
      match connection with
      | Some c => if truthy c then _do_disconnect c st else (Returns tt, st)
      | None => (Returns tt, st)
      end in
    (try_except (_ ← r; Returns true) (fun _ => Returns false), st).



(** The calls [disconnect] makes on a connection object it removes: none
    on a false object, else [close()] if the object has it, else
    [disconnect()] if the object has that, else none. *)
Definition closing_calls (c : connection) : list event :=
  if truthy c then
    if has_close c then [Close c]
    else if has_disconnect c then [Disconnect c]
    else []
  else [].

(** [Connector.get_connection_count]: [len(self._connections)]. *)
Definition get_connection_count (st : state) : Z :=
  Z.of_nat (size (_connections st)).


(** [Connector.ping] *)
Definition ping (device_mac : string) (st : state) : bool :=
  if negb (is_connected device_mac st) then false else true.

(** The loop of [disconnect_all] over the keys it was given:
    [for device_mac in keys: self.disconnect(device_mac)]. *)
Fixpoint disconnect_keys (keys : list string) (st : state)
  : outcome unit * state :=
  match keys with
  | [] => (Returns tt, st)
  | device_mac :: rest =>
      let '(r, st) := disconnect device_mac st in
      match r with
      | Returns _ => disconnect_keys rest st
      | Raises e => (Raises e, st)
      end
  end.

(** [Connector.disconnect_all], also [Connector.cleanup]: the loop runs
    over [list(self._connections.keys())].  A [dict] lists its keys in
    the order they were inserted, which the map does not keep; the keys are
    taken here in the order of the map, and the properties of the loop are
    proved for every order. *)
Definition disconnect_all (st : state) : outcome unit * state :=
  disconnect_keys (elements (dom (_connections st))) st.

End Connector.

(** ** The data channel of [DataHandler] *)

Module DataHandler.

(** An observer callback [callback(device_mac, data)]: the model keeps
    whether the call raises. *)
Definition observer : Type := string -> bytes -> bool.

Inductive event : Type :=
| DataSent (device_mac : string) (data : bytes)      (* [_on_data_sent] called *)
| DataReceived (device_mac : string) (data : bytes)  (* [_on_data_received] called *)
| QueueWait (device_mac : string) (timeout : Z)      (* blocked in [Queue.get] *)
| ThreadStart (device_mac : string).                 (* listener thread started *)

(** The handler object.  Of a listener thread only its presence in
    [_receive_threads] is looked at, so that dict is a set of keys. *)
Record state : Type := {
  _receive_queues : gmap string (list bytes);
  _receive_threads : gset string;
  _on_data_received : option observer;
  _on_data_sent : option observer;
  io : list event;
}.

Definition init : state :=
  {| _receive_queues := ∅; _receive_threads := ∅;
     _on_data_received := None; _on_data_sent := None; io := [] |}.

Definition record_event (e : event) (st : state) : state :=
  {| _receive_queues := _receive_queues st;
     _receive_threads := _receive_threads st;
     _on_data_received := _on_data_received st;
     _on_data_sent := _on_data_sent st;
     io := io st ++ [e] |}.

Definition set_queues (qs : gmap string (list bytes)) (st : state) : state :=
  {| _receive_queues := qs;
     _receive_threads := _receive_threads st;
     _on_data_received := _on_data_received st;
     _on_data_sent := _on_data_sent st;
     io := io st |}.

Definition set_threads (ts : gset string) (st : state) : state :=
  {| _receive_queues := _receive_queues st;
     _receive_threads := ts;
     _on_data_received := _on_data_received st;
     _on_data_sent := _on_data_sent st;
     io := io st |}.

(** [set_data_sent_callback] *)
Definition set_data_sent_callback (cb : observer) (st : state) : state :=
  {| _receive_queues := _receive_queues st;
     _receive_threads := _receive_threads st;
     _on_data_received := _on_data_received st;
     _on_data_sent := Some cb;
     io := io st |}.

(** [set_data_received_callback] *)
Definition set_data_received_callback (cb : observer) (st : state) : state :=
  {| _receive_queues := _receive_queues st;
     _receive_threads := _receive_threads st;
     _on_data_received := Some cb;
     _on_data_sent := _on_data_sent st;
     io := io st |}.

(** Calling an observer. *)
Definition notify (cb : observer) (e : event) (device_mac : string)
    (data : bytes) (st : state) : outcome unit * state :=
  (if cb device_mac data then Raises CallbackError else Returns tt,
   record_event e st).

(** [DataHandler.send(device_mac, data)]: the transport write is not
    written yet in the source; the observer is called and [True]
    returned, [False] when the observer raises. *)
Definition send (device_mac : string) (data : bytes) (st : state)
  : outcome bool * state :=
  let '(r, st) :=
    match _on_data_sent st with
    | Some cb => notify cb (DataSent device_mac data) device_mac data st
    | None => (Returns tt, st)
    end in
  (try_except (_ ← r; Returns true) (fun _ => Returns false), st).

(** [DataHandler.receive(device_mac, size, timeout)].  [Queue.get] with
    a negative timeout raises [ValueError]; on an empty queue it blocks
    for the timeout and raises [queue.Empty] (the listener thread of the
    source puts nothing into the queue). *)
Definition receive (device_mac : string) (size : Z) (timeout : Z)
    (st : state) : outcome (option bytes) * state :=
  match _receive_queues st !! device_mac with
  | Some q =>
      if timeout <? 0 then (Returns None, st)
      else
        match q with
        | [] => (Returns None, record_event (QueueWait device_mac timeout) st)
        | data :: q' =>
            let st := set_queues (<[device_mac := q']> (_receive_queues st)) st in
            let '(r, st) :=
              match _on_data_received st with
              | Some cb =>
                  notify cb (DataReceived device_mac data) device_mac data st
              | None => (Returns tt, st)
              end in
            (try_except (_ ← r; Returns (Some data)) (fun _ => Returns None), st)
        end
  | None => (Returns None, st)
  end.

(** [DataHandler.start_listening(device_mac, callback)] *)
Definition start_listening (device_mac : string) (st : state) : state :=
  if bool_decide (device_mac ∈ _receive_threads st) then st
  else
    let st := set_queues (<[device_mac := []]> (_receive_queues st)) st in
    let st := set_threads ({[device_mac]} ∪ _receive_threads st) st in
    record_event (ThreadStart device_mac) st.

(** [DataHandler.stop_listening(device_mac)] *)
Definition stop_listening (device_mac : string) (st : state) : state :=
  let st := set_threads (_receive_threads st ∖ {[device_mac]}) st in
  set_queues (delete device_mac (_receive_queues st)) st.

(** The devices with a receive queue are the devices with a listener
    thread. *)
Definition consistent (st : state) : Prop :=
  dom (_receive_queues st) = _receive_threads st.

(** The loop of [cleanup]: [for mac in keys: self.stop_listening(mac)]. *)
Definition stop_listening_keys (keys : list string) (st : state) : state :=
  fold_left (fun st mac => stop_listening mac st) keys st.

(** [DataHandler.cleanup(device_mac)]: [if device_mac:] is false for
    [None] and for the empty string; then every listener is stopped, over
    [list(self._receive_threads.keys())]. *)
Definition cleanup (device_mac : option string) (st : state) : state :=
  match device_mac with
  | Some mac =>
      if String.eqb mac "" then
        stop_listening_keys (elements (_receive_threads st)) st
      else stop_listening mac st
  | None => stop_listening_keys (elements (_receive_threads st)) st
  end.

(** [receive] called [n] times in a row for one device: the payloads
    returned (a [None] in the list is a call that returned nothing) and the
    handler afterwards. *)
Fixpoint receive_times (n : nat) (device_mac : string) (size timeout : Z)
    (st : state) : list (outcome (option bytes)) * state :=
  match n with
  | O => ([], st)
  | S n' =>
      let '(r, st) := receive device_mac size timeout st in
      let '(rs, st) := receive_times n' device_mac size timeout st in
      (r :: rs, st)
  end.

End DataHandler.

(** ** The manager facade ([BluetoothManager]) *)

Module BluetoothManager.

Record state : Type := {
  connector : Connector.state;
  data_handler : DataHandler.state;
}.

Definition init : state :=
  {| connector := Connector.init; data_handler := DataHandler.init |}.

(** [BluetoothManager.is_connected] *)
Definition is_connected (device_mac : string) (st : state) : bool :=
  Connector.is_connected device_mac (connector st).

(** [BluetoothManager.send_data(device_mac, data)] *)
Definition send_data (device_mac : string) (data : bytes) (st : state)
  : outcome bool * state :=
  if negb (is_connected device_mac st) then (Returns false, st)
  else
    let '(r, dh) := DataHandler.send device_mac data (data_handler st) in
    (r, {| connector := connector st; data_handler := dh |}).

(** [BluetoothDevice], the fields that identify a device. *)
Record device : Type := {
  name : string;
  mac_address : string;
  rssi : Z;
}.

(** The calls of the manager's own observers, oldest first. *)
Inductive notice : Type :=
| DeviceConnected (d : device)
| DeviceDisconnected (device_mac : string)
| DataArrived (device_mac : string) (data : bytes).

(** The whole manager object: the two sub-objects, the dict
    [_connected_devices] and the observers ([true]: the call raises). *)
Record manager : Type := {
  core : state;
  _connected_devices : gmap string device;
  _on_device_connected : option (device -> bool);
  _on_device_disconnected : option (string -> bool);
  _on_data_received : option DataHandler.observer;
  notices : list notice;
}.

Definition new_manager : manager :=
  {| core := init; _connected_devices := ∅;
     _on_device_connected := None; _on_device_disconnected := None;
     _on_data_received := None; notices := [] |}.

Definition with_core (c : state) (m : manager) : manager :=
  {| core := c; _connected_devices := _connected_devices m;
     _on_device_connected := _on_device_connected m;
     _on_device_disconnected := _on_device_disconnected m;
     _on_data_received := _on_data_received m; notices := notices m |}.

Definition with_devices (ds : gmap string device) (m : manager) : manager :=
  {| core := core m; _connected_devices := ds;
     _on_device_connected := _on_device_connected m;
     _on_device_disconnected := _on_device_disconnected m;
     _on_data_received := _on_data_received m; notices := notices m |}.

Definition note (n : notice) (m : manager) : manager :=
  {| core := core m; _connected_devices := _connected_devices m;
     _on_device_connected := _on_device_connected m;
     _on_device_disconnected := _on_device_disconnected m;
     _on_data_received := _on_data_received m;
     notices := notices m ++ [n] |}.

(** [on_device_connected], [on_device_disconnected], [on_data_received] *)
Definition on_device_connected (cb : device -> bool) (m : manager) : manager :=
  {| core := core m; _connected_devices := _connected_devices m;
     _on_device_connected := Some cb;
     _on_device_disconnected := _on_device_disconnected m;
     _on_data_received := _on_data_received m; notices := notices m |}.

Definition on_device_disconnected (cb : string -> bool) (m : manager)
  : manager :=
  {| core := core m; _connected_devices := _connected_devices m;
     _on_device_connected := _on_device_connected m;
     _on_device_disconnected := Some cb;
     _on_data_received := _on_data_received m; notices := notices m |}.

Definition on_data_received (cb : DataHandler.observer) (m : manager)
  : manager :=
  {| core := core m; _connected_devices := _connected_devices m;
     _on_device_connected := _on_device_connected m;
     _on_device_disconnected := _on_device_disconnected m;
     _on_data_received := Some cb; notices := notices m |}.

(** [BluetoothManager._get_device_info] *)
Definition _get_device_info (device_mac : string) (m : manager)
  : option device :=
  _connected_devices m !! device_mac.

(** [BluetoothManager.get_connected_devices] *)
Definition get_connected_devices (m : manager) : list device :=
  (map_to_list (_connected_devices m)).*2.

(** [BluetoothManager.connect_device(device_mac)] *)
Definition connect_device (cfg : Connector.config) (tr : Connector.transport)
    (device_mac : string) (m : manager) : outcome bool * manager :=
  let '(r, cs) :=
    Connector.connect cfg tr device_mac None (connector (core m)) in
  let m := with_core {| connector := cs; data_handler := data_handler (core m) |} m in
  match r with
  | Raises e => (Raises e, m)
  | Returns success =>
      if success then
        match _on_device_connected m with
        | Some cb =>
            match _get_device_info device_mac m with
            | Some d =>
                (if cb d then Raises CallbackError else Returns success,
                 note (DeviceConnected d) m)
            | None => (Returns success, m)
            end
        | None => (Returns success, m)
        end
      else (Returns success, m)
  end.

(** [BluetoothManager.disconnect_device(device_mac)] *)
Definition disconnect_device (device_mac : string) (m : manager)
  : outcome bool * manager :=
  let '(r, cs) := Connector.disconnect device_mac (connector (core m)) in
  let m := with_core {| connector := cs; data_handler := data_handler (core m) |} m in
  match r with
  | Raises e => (Raises e, m)
  | Returns success =>
      if success then
        let m := with_devices (delete device_mac (_connected_devices m)) m in
        match _on_device_disconnected m with
        | Some cb =>
            (if cb device_mac then Raises CallbackError else Returns success,
             note (DeviceDisconnected device_mac) m)
        | None => (Returns success, m)
        end
      else (Returns success, m)
  end.

(** [BluetoothManager.send_data] on the whole manager. *)
Definition manager_send_data (device_mac : string) (data : bytes)
    (m : manager) : outcome bool * manager :=
  let '(r, c) := send_data device_mac data (core m) in (r, with_core c m).

(** [BluetoothManager.receive_data(device_mac, size, timeout)]; in
    [if data and ...] an empty payload counts as false. *)
Definition receive_data (device_mac : string) (size timeout : Z)
    (m : manager) : outcome (option bytes) * manager :=
  if negb (is_connected device_mac (core m)) then (Returns None, m)
  else
    let '(r, dh) :=
      DataHandler.receive device_mac size timeout (data_handler (core m)) in
    let m := with_core {| connector := connector (core m); data_handler := dh |} m in
    match r with
    | Raises e => (Raises e, m)
    | Returns None => (Returns None, m)
    | Returns (Some data) =>
        match data, _on_data_received m with
        | _ :: _, Some cb =>
            (if cb device_mac data then Raises CallbackError
             else Returns (Some data),
             note (DataArrived device_mac data) m)
        | _, _ => (Returns (Some data), m)
        end
    end.

(** The loop of [cleanup] over the keys it was given. *)
Fixpoint disconnect_devices (keys : list string) (m : manager)
  : outcome unit * manager :=
  match keys with
  | [] => (Returns tt, m)
  | device_mac :: rest =>
      let '(r, m) := disconnect_device device_mac m in
      match r with
      | Returns _ => disconnect_devices rest m
      | Raises e => (Raises e, m)
      end
  end.

(** [BluetoothManager.cleanup]: the loop runs over
    [list(self._connected_devices.keys())]. *)
Definition cleanup (m : manager) : outcome unit * manager :=
  disconnect_devices (elements (dom (_connected_devices m))) m.

(** Whether a notice is a call of the device-connected observer. *)
Definition is_connected_notice (n : notice) : bool :=
  match n with DeviceConnected _ => true | _ => false end.

(** No device is in [_connected_devices] and the device-connected
    observer has not been called. *)
Definition untracked (m : manager) : Prop :=
  _connected_devices m = ∅
  /\ forallb (fun n => negb (is_connected_notice n)) (notices m) = true.

(** The calls a user of the manager can make. *)
Inductive call : Type :=
| ConnectDevice (device_mac : string)
| DisconnectDevice (device_mac : string)
| SendData (device_mac : string) (data : bytes)
| ReceiveData (device_mac : string) (size timeout : Z)
| Cleanup
| OnDeviceConnected (cb : device -> bool)
| OnDeviceDisconnected (cb : string -> bool)
| OnDataReceived (cb : DataHandler.observer)
| SetDataSentCallback (cb : DataHandler.observer)
| SetDataReceivedCallback (cb : DataHandler.observer)
| StartListening (device_mac : string)
| StopListening (device_mac : string).

Definition with_handler (f : DataHandler.state -> DataHandler.state)
    (m : manager) : manager :=
  with_core {| connector := connector (core m);
               data_handler := f (data_handler (core m)) |} m.

(** The manager after one call, whatever the call returned or raised. *)
Definition after (cfg : Connector.config) (tr : Connector.transport)
    (c : call) (m : manager) : manager :=
  match c with
  | ConnectDevice mac => (connect_device cfg tr mac m).2
  | DisconnectDevice mac => (disconnect_device mac m).2
  | SendData mac data => (manager_send_data mac data m).2
  | ReceiveData mac size timeout => (receive_data mac size timeout m).2
  | Cleanup => (cleanup m).2
  | OnDeviceConnected cb => on_device_connected cb m
  | OnDeviceDisconnected cb => on_device_disconnected cb m
  | OnDataReceived cb => on_data_received cb m
  | SetDataSentCallback cb =>
      with_handler (DataHandler.set_data_sent_callback cb) m
  | SetDataReceivedCallback cb =>
      with_handler (DataHandler.set_data_received_callback cb) m
  | StartListening mac => with_handler (DataHandler.start_listening mac) m
  | StopListening mac => with_handler (DataHandler.stop_listening mac) m
  end.

(** The manager after a sequence of calls on a new manager. *)
Definition after_all (cfg : Connector.config) (tr : Connector.transport)
    (calls : list call) : manager :=
  fold_left (fun m c => after cfg tr c m) calls new_manager.

End BluetoothManager.

(** ** Test doubles *)

Module Fixtures.

Import Connector.

(** The address used by [tests/test_connector.py]. *)
Definition test_mac : string := "00:11:22:33:44:55".

(** A connection object whose [close()] returns. *)
Definition mock_connection : connection :=
  {| conn_id := 1; truthy := true; has_close := true;
     has_disconnect := false; close_raises := false |}.

(** A connection object whose [close()] raises. *)
Definition broken_connection : connection :=
  {| conn_id := 2; truthy := true; has_close := true;
     has_disconnect := false; close_raises := true |}.

(** The back-ends as the source has them: each returns [None]. *)
Definition stub_backend (n : nat) (device_mac : string) (port : option Z)
  : outcome (option connection) := Returns None.

Definition stub_transport : transport :=
  {| system := Linux; _connect_linux := stub_backend;
     _connect_windows := stub_backend; _connect_macos := stub_backend |}.

(** A back-end that returns [None] on the first attempt, raises on the
    second and hands out a connection from the third attempt on. *)
Definition flaky_backend (n : nat) (device_mac : string) (port : option Z)
  : outcome (option connection) :=
  match n with
  | O => Returns None
  | S O => Raises TransportError
  | _ => Returns (Some mock_connection)
  end.

Definition flaky_transport : transport :=
  {| system := Linux; _connect_linux := flaky_backend;
     _connect_windows := stub_backend; _connect_macos := stub_backend |}.

(** A connector that holds one connection whose [close()] raises. *)
Definition connected_to_broken : state :=
  {| _connections := {[ test_mac := broken_connection ]}; io := [] |}.

(** An observer that returns normally. *)
Definition quiet_observer : DataHandler.observer := fun _ _ => false.

(** A handler on which [start_listening(test_mac)] has been called. *)
Definition listening : DataHandler.state :=
  DataHandler.start_listening test_mac
    (DataHandler.set_data_received_callback quiet_observer DataHandler.init).

(** A fresh manager, no device connected, with a data-sent observer. *)
Definition observed_manager : BluetoothManager.state :=
  {| BluetoothManager.connector := Connector.init;
     BluetoothManager.data_handler :=
       DataHandler.set_data_sent_callback quiet_observer DataHandler.init |}.

(** An observer that raises. *)
Definition raising_observer : DataHandler.observer := fun _ _ => true.

(** A handler whose listener has queued three payloads for [test_mac]. *)
Definition queued : DataHandler.state :=
  DataHandler.set_queues
    (<[test_mac := [[x41]; [x42]; [x43]]]> (DataHandler._receive_queues listening))
    listening.

(** The same handler with a data-received observer that raises. *)
Definition queued_raising : DataHandler.state :=
  DataHandler.set_data_received_callback raising_observer queued.

(** A connection object with both closing methods, one with [disconnect()]
    only, and one that counts as false. *)
Definition both_methods_connection : connection :=
  {| conn_id := 3; truthy := true; has_close := true;
     has_disconnect := true; close_raises := false |}.

Definition disconnect_only_connection : connection :=
  {| conn_id := 4; truthy := true; has_close := false;
     has_disconnect := true; close_raises := false |}.

Definition false_connection : connection :=
  {| conn_id := 5; truthy := false; has_close := true;
     has_disconnect := false; close_raises := false |}.

Definition other_mac : string := "00:11:22:33:44:56".

(** An observer of disconnections that raises. *)
Definition raising_disconnect_observer : string -> bool := fun _ => true.

(** A manager whose connector holds a connection for [test_mac] and whose
    device-disconnected observer raises. *)
Definition manager_with_connection : BluetoothManager.manager :=
  BluetoothManager.on_device_disconnected raising_disconnect_observer
    (BluetoothManager.with_core
       {| BluetoothManager.connector :=
            {| _connections := {[ test_mac := mock_connection ]}; io := [] |};
          BluetoothManager.data_handler := DataHandler.init |}
       BluetoothManager.new_manager).

(** A connector that holds two connections. *)
Definition two_connections : state :=
  {| _connections :=
       <[test_mac := broken_connection]> {[ other_mac := false_connection ]};
     io := [] |}.



(** A back-end that hands out a connection at once. *)
Definition ready_backend (n : nat) (device_mac : string) (port : option Z)
  : outcome (option connection) := Returns (Some mock_connection).

Definition ready_transport : transport :=
  {| system := Linux; _connect_linux := ready_backend;
     _connect_windows := stub_backend; _connect_macos := stub_backend |}.

End Fixtures.

(** * Properties *)

(** ** Worked frames *)

Example ex_pack : pack_data [x01; x02; xff] true true
                  = Returns [x00; x00; x00; x03; x01; x02; xff; x02].
Proof. reflexivity. Qed.

Example ex_unpack : unpack_data [x00; x00; x00; x03; x01; x02; xff; x02] true true
                  = Returns (Some [x01; x02; xff]).
Proof. reflexivity. Qed.

Example ex_unpack_empty : unpack_data [] true false = Returns None.
Proof. reflexivity. Qed.

(** ** Bytes, digits and slices *)

Section PyFacts.

Lemma len_nonneg {A} (s : list A) : 0 <= len s.
Proof. unfold len. lia. Qed.

Lemma len_app {A} (s t : list A) : len (s ++ t) = len s + len t.
Proof. unfold len. rewrite length_app. lia. Qed.

Lemma byte_val_range (b : byte) : 0 <= byte_val b < 256.
Proof.
  unfold byte_val. pose proof (Byte.to_N_bounded b). lia.
Qed.

Lemma low_byte_val (n : Z) : 0 <= n < 256 -> byte_val (low_byte n) = n.
Proof.
  intros Hn. unfold low_byte, byte_val.
  rewrite Z.mod_small by lia.
  destruct (Byte.of_N (Z.to_N n)) as [b|] eqn:E.
  - apply Byte.to_of_N in E. simpl. rewrite E. lia.
  - apply Byte.of_N_None_iff in E. lia.
Qed.

Lemma low_byte_of_val (b : byte) : low_byte (byte_val b) = b.
Proof.
  unfold low_byte, byte_val.
  rewrite Z.mod_small by (pose proof (Byte.to_N_bounded b); lia).
  rewrite N2Z.id, Byte.of_to_N. reflexivity.
Qed.

Lemma low_byte_mod (n : Z) : byte_val (low_byte n) = n mod 256.
Proof.
  assert (low_byte n = low_byte (n mod 256)) as ->.
  { unfold low_byte. rewrite Z.mod_mod by lia. reflexivity. }
  apply low_byte_val. apply Z.mod_pos_bound. lia.
Qed.

Lemma length_be_digits (w : nat) (n : Z) : length (be_digits w n) = w.
Proof.
  revert n. induction w as [|w IH]; intros n; simpl; [reflexivity|].
  rewrite length_app, IH. simpl. lia.
Qed.

Lemma from_bytes_snoc (s : bytes) (b : byte) :
  from_bytes (s ++ [b]) = from_bytes s * 256 + byte_val b.
Proof. unfold from_bytes. rewrite fold_left_app. reflexivity. Qed.

Lemma from_bytes_be_digits (w : nat) (n : Z) :
  0 <= n -> from_bytes (be_digits w n) = n mod 256 ^ Z.of_nat w.
Proof.
  revert n. induction w as [|w IH]; intros n Hn.
  - simpl. rewrite Z.mod_1_r. reflexivity.
  - cbn [be_digits]. rewrite from_bytes_snoc, low_byte_mod.
    rewrite IH by (apply Z.div_pos; lia).
    rewrite Nat2Z.inj_succ, Z.pow_succ_r by lia.
    rewrite Z.rem_mul_r by lia. lia.
Qed.

Lemma to_bytes_fits (n : Z) (w : nat) :
  0 <= n < 256 ^ Z.of_nat w -> to_bytes n w = Returns (be_digits w n).
Proof.
  intros Hn. unfold to_bytes.
  destruct (n <? 0) eqn:E1; [lia|].
  destruct (256 ^ Z.of_nat w <=? n) eqn:E2; [lia|]. reflexivity.
Qed.

Lemma to_bytes_too_big (n : Z) (w : nat) :
  256 ^ Z.of_nat w <= n -> to_bytes n w = Raises OverflowError.
Proof.
  intros Hn. unfold to_bytes.
  destruct (256 ^ Z.of_nat w <=? n) eqn:E2; [|lia].
  rewrite orb_true_r. reflexivity.
Qed.

(** The slice between two cut points of a concatenation. *)
Lemma slice_middle {A} (a b c : list A) (i j : Z) :
  slice_bound (len (a ++ b ++ c)) i = len a ->
  slice_bound (len (a ++ b ++ c)) j = len a + len b ->
  slice (a ++ b ++ c) (Some i) (Some j) = b.
Proof.
  intros Hi Hj. unfold slice. rewrite Hi, Hj.
  replace (len a + len b - len a) with (len b) by lia.
  unfold len. rewrite !Nat2Z.id.
  rewrite drop_app_length. apply take_app_length.
Qed.

Lemma slice_from_start {A} (b c : list A) (j : Z) :
  slice_bound (len (b ++ c)) j = len b ->
  slice (b ++ c) None (Some j) = b.
Proof.
  intros Hj. unfold slice. rewrite Hj, Z.sub_0_r.
  unfold len. rewrite Nat2Z.id. simpl. apply take_app_length.
Qed.

Lemma getitem_last (s : bytes) (b : byte) :
  getitem (s ++ [b]) (-1) = Returns (byte_val b).
Proof.
  unfold getitem. rewrite len_app. pose proof (len_nonneg s).
  change (len [b]) with 1. cbn [Z.ltb Z.compare].
  replace (-1 + (len s + 1)) with (len s) by lia.
  destruct (len s <? 0) eqn:E1; [lia|].
  destruct (len s + 1 <=? len s) eqn:E2; [lia|]. simpl.
  unfold len. rewrite Nat2Z.id.
  rewrite list_lookup_middle by reflexivity. reflexivity.
Qed.

Lemma checksum_range (data : bytes) : 0 <= calculate_checksum data < 256.
Proof.
  unfold calculate_checksum. change 255 with (Z.ones 8).
  rewrite Z.land_ones by lia. apply Z.mod_pos_bound. lia.
Qed.

Lemma int_to_byte_checksum (data : bytes) :
  int_to_byte (calculate_checksum data)
  = Returns (low_byte (calculate_checksum data)).
Proof.
  pose proof (checksum_range data) as H. unfold int_to_byte.
  destruct (0 <=? calculate_checksum data) eqn:E1; [|lia].
  destruct (calculate_checksum data <? 256) eqn:E2; [|lia]. reflexivity.
Qed.

End PyFacts.

(** ** What [pack_data] builds and what [unpack_data] reads *)

Section CodecFacts.

Lemma pack_data_frame (data : bytes) (c l : bool) :
  (l = true -> len data < 2 ^ 32) ->
  pack_data data c l
  = Returns (length_field data l ++ data ++ checksum_field data c).
Proof.
  intros Hfit. unfold pack_data, length_field, checksum_field.
  destruct l.
  - rewrite to_bytes_fits by (pose proof (len_nonneg data);
      specialize (Hfit eq_refl); change (256 ^ Z.of_nat 4) with (2 ^ 32); lia).
    destruct c.
    + cbn [mbind outcome_bind Py.bind]. rewrite int_to_byte_checksum.
      cbn [mbind outcome_bind Py.bind]. rewrite app_nil_l, <- app_assoc.
      reflexivity.
    + cbn [mbind outcome_bind Py.bind]. rewrite app_nil_l, app_nil_r.
      reflexivity.
  - destruct c.
    + cbn [mbind outcome_bind Py.bind]. rewrite int_to_byte_checksum.
      reflexivity.
    + cbn [mbind outcome_bind Py.bind]. rewrite app_nil_r. reflexivity.
Qed.

Lemma pack_data_overflow (data : bytes) (c : bool) :
  2 ^ 32 <= len data -> pack_data data c true = Raises OverflowError.
Proof.
  intros Hbig. unfold pack_data.
  rewrite to_bytes_too_big by (change (256 ^ Z.of_nat 4) with (2 ^ 32); lia).
  reflexivity.
Qed.

(** A frame with a checksum byte: the bytes between the length field (if
    any) and the last byte are checked against the last byte. *)
Lemma unpack_data_checked (pre data : bytes) (c : byte) (l : bool) :
  length pre = (if l then 4 else 0)%nat ->
  unpack_data (pre ++ data ++ [c]) true l
  = Returns (if calculate_checksum data =? byte_val c
             then Some data else None).
Proof.
  intros Hpre. unfold unpack_data.
  pose proof (len_nonneg data) as Hd.
  assert (len (pre ++ data ++ [c]) = len pre + len data + 1) as Hlen.
  { rewrite !len_app. change (len [c]) with 1. lia. }
  assert (len pre = if l then 4 else 0) as Hp.
  { unfold len. rewrite Hpre. destruct l; reflexivity. }
  assert (has_len_short :
    l && (len (pre ++ data ++ [c]) <? 4) = false).
  { destruct l; [|reflexivity]. simpl.
    apply Z.ltb_ge. rewrite Hlen, Hp. lia. }
  rewrite has_len_short.
  assert (getitem (pre ++ data ++ [c]) (-1) = Returns (byte_val c)) as Hget.
  { rewrite app_assoc. apply getitem_last. }
  assert (slice (pre ++ data ++ [c]) (Some (len pre)) (Some (-1)) = data)
    as Hslice.
  { pose proof (len_nonneg pre) as Hpre0.
    apply slice_middle; unfold slice_bound; rewrite Hlen.
    - destruct (len pre <? 0) eqn:E; lia.
    - change (-1 <? 0) with true. cbv iota. lia. }
  rewrite Hp in Hslice.
  destruct l; cbv iota; rewrite Hget; cbn [mbind outcome_bind Py.bind];
    rewrite Hslice;
    destruct (calculate_checksum data =? byte_val c); reflexivity.
Qed.

(** A frame with a length field and no checksum: the field tells how many
    bytes to take after it. *)
Lemma unpack_data_counted (pre data : bytes) :
  length pre = 4%nat -> from_bytes pre = len data ->
  unpack_data (pre ++ data) false true = Returns (Some data).
Proof.
  intros Hpre Hval. unfold unpack_data.
  pose proof (len_nonneg data) as Hd.
  assert (len pre = 4) as Hp by (unfold len; rewrite Hpre; reflexivity).
  assert (len (pre ++ data) = 4 + len data) as Hlen
    by (rewrite len_app; lia).
  assert ((len (pre ++ data) <? 4) = false) as -> by (apply Z.ltb_ge; lia).
  cbn [andb].
  assert (slice (pre ++ data) None (Some 4) = pre) as ->.
  { apply slice_from_start. unfold slice_bound. rewrite Hlen.
    change (4 <? 0) with false. cbv iota. lia. }
  rewrite Hval. cbn [try_except].
  rewrite <- (app_nil_r data) at 1.
  rewrite slice_middle; [reflexivity | |];
    rewrite app_nil_r; unfold slice_bound; rewrite Hlen.
  - change (4 <? 0) with false. cbv iota. lia.
  - destruct (4 + len data <? 0) eqn:E; lia.
Qed.

(** A frame with neither field is its own payload. *)
Lemma unpack_data_bare (data : bytes) :
  unpack_data data false false = Returns (Some data).
Proof.
  unfold unpack_data. cbn [andb try_except].
  pose proof (len_nonneg data) as Hd.
  rewrite <- (app_nil_l data) at 1. rewrite <- (app_nil_r data) at 1.
  rewrite slice_middle; [reflexivity | |];
    rewrite app_nil_l, app_nil_r; unfold slice_bound;
    change (len (@nil byte)) with 0.
  - change (0 <? 0) with false. cbv iota. lia.
  - destruct (0 + len data <? 0) eqn:E; lia.
Qed.

(** Too few bytes for the length field. *)
Lemma unpack_data_short_prefix (packet : bytes) (c : bool) :
  len packet < 4 -> unpack_data packet c true = Returns None.
Proof.
  intros H. unfold unpack_data.
  assert ((len packet <? 4) = true) as -> by (apply Z.ltb_lt; lia).
  reflexivity.
Qed.

(** No byte to read the checksum from: [packet[-1]] raises, the handler
    turns the [IndexError] into [None]. *)
Lemma unpack_data_empty_checked : unpack_data [] true false = Returns None.
Proof. reflexivity. Qed.

End CodecFacts.

(** ** The codec claims *)

(** C1, as the code has it.  For every payload [P] and both flags, packing
    [P] and unpacking the frame with the same flags gives [P] back, provided
    that, when the length field is asked for, [P] has fewer than [2^32]
    bytes (what a 4-byte field can count). *)
Theorem pack_unpack_roundtrip (P : bytes) (c l : bool) :
  (l = true -> len P < 2 ^ 32) ->
  unpack_packed P c l = Returns (Some P).
Proof.
  intros Hfit. unfold unpack_packed.
  rewrite pack_data_frame by assumption.
  cbn [mbind outcome_bind Py.bind].
  destruct c.
  - unfold checksum_field.
    rewrite unpack_data_checked
      by (unfold length_field; destruct l; [apply length_be_digits | reflexivity]).
    rewrite low_byte_val by apply checksum_range.
    rewrite Z.eqb_refl. reflexivity.
  - unfold checksum_field. rewrite app_nil_r. destruct l.
    + unfold length_field. apply unpack_data_counted.
      * apply length_be_digits.
      * pose proof (len_nonneg P). specialize (Hfit eq_refl).
        rewrite from_bytes_be_digits by lia.
        change (256 ^ Z.of_nat 4) with (2 ^ 32).
        apply Z.mod_small. lia.
    + apply unpack_data_bare.
Qed.

Lemma pack_unpack_roundtrip_witness :
  unpack_packed [x01; x02; xff] true true = Returns (Some [x01; x02; xff]).
Proof.
  apply (pack_unpack_roundtrip [x01; x02; xff] true true).
  intros _. vm_compute. reflexivity.
Defined.

(** C1, as it is written, fails on a payload of [2^32] bytes with the
    length field: [len(data).to_bytes(4, "big")] raises [OverflowError]
    out of [pack_data], so nothing is unpacked. *)
Lemma pack_unpack_roundtrip_fails_on_4GiB :
  unpack_packed four_gib_payload true true = Raises OverflowError
  /\ unpack_packed four_gib_payload true true <> Returns (Some four_gib_payload).
Proof.
  assert (unpack_packed four_gib_payload true true = Raises OverflowError)
    as H.
  { unfold unpack_packed. rewrite pack_data_overflow; [reflexivity|].
    unfold four_gib_payload, len. rewrite length_replicate.
    rewrite Z2Nat.id; [apply Z.le_refl | apply Z.pow_nonneg; lia]. }
  split; [exact H|]. rewrite H. discriminate.
Qed.

(** X13.  Of the frames shorter than their fixed fields, one shape is
    accepted, unpacked as the empty payload: both fields on, exactly four
    bytes, the last of them zero.  Every other frame shorter than its
    fixed fields is rejected. *)
Lemma short_frame_outcome (packet : bytes) (c l : bool) :
  len packet < fixed_fields_size c l ->
  (c = true /\ l = true /\ len packet = 4
   /\ getitem packet (-1) = Returns 0 ->
   unpack_data packet c l = Returns (Some []))
  /\ (~ (c = true /\ l = true /\ len packet = 4
         /\ getitem packet (-1) = Returns 0) ->
      unpack_data packet c l = Returns None).
Proof.
  intros Hshort. destruct l.
  - destruct (Z_lt_le_dec (len packet) 4) as [Hlt|Hge].
    + split; [intros (_ & _ & Hlen & _); lia|].
      intros _. apply unpack_data_short_prefix. exact Hlt.
    + destruct c; [|unfold fixed_fields_size in Hshort; lia].
      destruct packet as [|b0 [|b1 [|b2 [|b3 [|b4 rest]]]]];
        try (unfold fixed_fields_size, len in *; simpl in *; lia).
      assert (getitem [b0; b1; b2; b3] (-1) = Returns (byte_val b3)) as Hget
        by (apply (getitem_last [b0; b1; b2] b3)).
      assert (unpack_data [b0; b1; b2; b3] true true
              = Returns (if byte_val b3 =? 0 then Some [] else None)) as Hun.
      { unfold unpack_data. change (len [b0; b1; b2; b3] <? 4) with false.
        cbn [andb]. rewrite Hget. cbn [mbind outcome_bind Py.bind].
        change (slice [b0; b1; b2; b3] (Some 4) (Some (-1))) with (@nil byte).
        change (calculate_checksum []) with 0.
        rewrite (Z.eqb_sym 0).
        destruct (byte_val b3 =? 0); reflexivity. }
      rewrite Hun, Hget. split.
      * intros (_ & _ & _ & [= ->]). reflexivity.
      * intros Hnot. destruct (byte_val b3 =? 0) eqn:E; [|reflexivity].
        apply Z.eqb_eq in E. destruct Hnot. rewrite E. repeat split.
  - split; [intros (_ & [=] & _)|]. intros _.
    destruct c; [|unfold fixed_fields_size in Hshort;
                  pose proof (len_nonneg packet); lia].
    destruct packet as [|b0 rest];
      [reflexivity
      | unfold fixed_fields_size, len in Hshort; simpl in Hshort; lia].
Qed.

(** C2.  A frame of four zero bytes, read with both fields on, is shorter
    than the five bytes its fixed fields take, and yet [unpack_data]
    returns the empty payload: the last byte of the length field is read as
    the checksum of the empty slice [packet[4:-1]]. *)
Theorem unpack_data_accepts_truncated_frame :
  len [x00; x00; x00; x00] < fixed_fields_size true true
  /\ unpack_data [x00; x00; x00; x00] true true = Returns (Some []).
Proof. split; reflexivity. Qed.

(** C3.  For every payload [P], every byte [b] that is not the checksum of
    [P], and both values of the length flag: the frame packed from [P] with
    its last byte replaced by [b] is rejected by [unpack_data] ([None]). *)
Theorem unpack_rejects_wrong_checksum (P frame : bytes) (b : byte) (l : bool) :
  pack_data P true l = Returns frame ->
  byte_val b <> calculate_checksum P ->
  unpack_data (replace_checksum frame b) true l = Returns None.
Proof.
  intros Hpack Hb.
  assert (l = true -> len P < 2 ^ 32) as Hfit.
  { intros ->. destruct (Z_lt_le_dec (len P) (2 ^ 32)) as [?|Hbig]; [assumption|].
    rewrite pack_data_overflow in Hpack by assumption. discriminate. }
  rewrite pack_data_frame in Hpack by assumption.
  injection Hpack as <-.
  assert (replace_checksum
            (length_field P l ++ P ++ [low_byte (calculate_checksum P)]) b
          = length_field P l ++ P ++ [b]) as ->.
  { unfold replace_checksum.
    rewrite (app_assoc (length_field P l) P).
    rewrite slice_from_start; [rewrite <- app_assoc; reflexivity|].
    unfold slice_bound. change (-1 <? 0) with true. cbv iota.
    rewrite (len_app (_ ++ _)). change (len [_]) with 1.
    pose proof (len_nonneg (length_field P l ++ P)). lia. }
  rewrite unpack_data_checked
    by (unfold length_field; destruct l; [apply length_be_digits | reflexivity]).
  destruct (calculate_checksum P =? byte_val b) eqn:E; [|reflexivity].
  apply Z.eqb_eq in E. congruence.
Qed.

Lemma unpack_rejects_wrong_checksum_witness :
  unpack_data (replace_checksum [x00; x00; x00; x02; x01; x02; x03] xff) true true
  = Returns None.
Proof.
  apply (unpack_rejects_wrong_checksum [x01; x02] _ xff true).
  - vm_compute. reflexivity.
  - vm_compute. discriminate.
Defined.

(** C4.  For every byte string and both flags, [unpack_data] returns: its
    outcome is a value, a payload or [None], and never an exception. *)
Theorem unpack_data_never_raises (packet : bytes) (c l : bool) :
  exists r : option bytes, unpack_data packet c l = Returns r.
Proof.
  unfold unpack_data.
  match goal with |- context [try_except ?body _] => destruct body as [r|e] end.
  - exists r. reflexivity.
  - exists None. reflexivity.
Qed.

(** C10.  With both fields on and a packet that carries the 4-byte length
    field [b0 b1 b2 b3], [unpack_data] returns [packet[4 : len(packet)-1]]
    whenever the checksum of that slice is the last byte of the packet,
    whatever number the length field holds; and two packets that differ
    only in the length field are unpacked alike. *)
Theorem unpack_data_ignores_declared_length :
  (forall (b0 b1 b2 b3 : byte) (rest : bytes),
      let packet := b0 :: b1 :: b2 :: b3 :: rest in
      getitem packet (-1)
      = Returns (calculate_checksum
                   (slice packet (Some 4) (Some (len packet - 1)))) ->
      unpack_data packet true true
      = Returns (Some (slice packet (Some 4) (Some (len packet - 1)))))
  /\ (forall (b0 b1 b2 b3 c0 c1 c2 c3 : byte) (rest : bytes),
        rest <> [] ->
        unpack_data (b0 :: b1 :: b2 :: b3 :: rest) true true
        = unpack_data (c0 :: c1 :: c2 :: c3 :: rest) true true).
Proof.
  split.
  - intros b0 b1 b2 b3 rest packet Hsum.
    assert (4 <= len packet) as Hlen.
    { unfold packet, len. cbn [length]. lia. }
    clearbody packet. unfold unpack_data.
    assert ((len packet <? 4) = false) as -> by (apply Z.ltb_ge; lia).
    cbn [andb]. rewrite Hsum. cbn [mbind outcome_bind Py.bind].
    assert (slice packet (Some 4) (Some (-1))
            = slice packet (Some 4) (Some (len packet - 1))) as ->.
    { unfold slice, slice_bound. change (-1 <? 0) with true. cbv iota.
      assert ((len packet - 1 <? 0) = false) as -> by (apply Z.ltb_ge; lia).
      replace (-1 + len packet) with (len packet - 1) by lia. reflexivity. }
    rewrite Z.eqb_refl. reflexivity.
  - intros b0 b1 b2 b3 c0 c1 c2 c3 rest Hrest.
    destruct (exists_last Hrest) as (data & c & ->).
    change (unpack_data ([b0; b1; b2; b3] ++ data ++ [c]) true true
            = unpack_data ([c0; c1; c2; c3] ++ data ++ [c]) true true).
    rewrite !unpack_data_checked by reflexivity. reflexivity.
Qed.

Lemma unpack_data_ignores_declared_length_witness :
  unpack_data [xff; xff; xff; xff; x01; x02; x03] true true
  = Returns (Some [x01; x02])
  /\ unpack_data [xff; xff; xff; xff; x01; x02; x03] true true
     = unpack_data [x00; x00; x00; x02; x01; x02; x03] true true.
Proof.
  split.
  - apply (proj1 unpack_data_ignores_declared_length
             xff xff xff xff [x01; x02; x03]).
    vm_compute. reflexivity.
  - apply (proj2 unpack_data_ignores_declared_length
             xff xff xff xff x00 x00 x00 x02 [x01; x02; x03]).
    discriminate.
Defined.

(** ** The connection lifecycle *)

Section ConnectorFacts.

Import Connector.

Variable cfg : config.
Variable tr : transport.

Lemma opens_snoc_open (log : list event) (mac : string) (port : option Z) :
  opens (log ++ [Open mac port]) = S (opens log).
Proof.
  unfold opens. rewrite filter_app, length_app. simpl. lia.
Qed.

Lemma opens_snoc_sleep (log : list event) (d : Z) :
  opens (log ++ [Sleep d]) = opens log.
Proof.
  unfold opens. rewrite filter_app, length_app. simpl. lia.
Qed.




Lemma is_connected_lookup (mac : string) (st : state) :
  is_connected mac st = true <-> is_Some (_connections st !! mac).
Proof. unfold is_connected. apply bool_decide_eq_true. Qed.

Lemma not_connected_lookup (mac : string) (st : state) :
  is_connected mac st = false <-> _connections st !! mac = None.
Proof.
  unfold is_connected. rewrite bool_decide_eq_false.
  rewrite eq_None_not_Some. reflexivity.
Qed.

(** [time.sleep] on a number that is not negative waits and returns. *)
Lemma time_sleep_waits (s : Z) (st : state) :
  0 <= s -> time_sleep (Seconds s) st = (Returns tt, record_event (Sleep s) st).
Proof.
  intros Hs. unfold time_sleep.
  destruct (s <? 0) eqn:E; [lia | reflexivity].
Qed.

(** On any other delay it raises, and nothing is logged. *)
Lemma time_sleep_raises (d : delay) (e : exn) (st : state) :
  sleep_error d = Some e -> time_sleep d st = (Raises e, st).
Proof.
  unfold sleep_error, time_sleep. destruct d as [s|].
  - destruct (s <? 0); [|discriminate]. intros [= <-]. reflexivity.
  - intros [= <-]. reflexivity.
Qed.

Lemma sleep_error_none (d : delay) :
  sleep_error d = None <-> exists s, d = Seconds s /\ 0 <= s.
Proof.
  unfold sleep_error. destruct d as [s|].
  - destruct (s <? 0) eqn:E; split.
    + discriminate.
    + intros (s' & [= <-] & Hs). lia.
    + intros _. exists s. split; [reflexivity | lia].
    + reflexivity.
  - split; [discriminate | intros (s & Hs & _); discriminate].
Qed.

(** One failed attempt, with a delay [time.sleep] accepts: the loop
    records the attempt, waits unless the attempt was the last one of the
    range, and goes on. *)
Lemma connect_loop_failed (mac : string) (port : option Z)
    (attempt : Z) (rest : list Z) (st : state) (s : Z) :
  _retry_delay cfg = Seconds s -> 0 <= s ->
  established (open_primitive tr (opens (io st)) mac port) = None ->
  connect_loop cfg tr mac port (attempt :: rest) st
  = connect_loop cfg tr mac port rest
      (if attempt <? _retry_count cfg - 1
       then record_event (Sleep s) (record_event (Open mac port) st)
       else record_event (Open mac port) st).
Proof.
  intros Hd Hs H. cbn [connect_loop _do_connect]. rewrite H, Hd.
  rewrite time_sleep_waits by exact Hs.
  destruct (attempt <? _retry_count cfg - 1); reflexivity.
Qed.

(** The last attempt of the range fails: no wait, whatever the delay. *)
Lemma connect_loop_failed_last (mac : string) (port : option Z)
    (attempt : Z) (rest : list Z) (st : state) :
  (attempt <? _retry_count cfg - 1) = false ->
  established (open_primitive tr (opens (io st)) mac port) = None ->
  connect_loop cfg tr mac port (attempt :: rest) st
  = connect_loop cfg tr mac port rest (record_event (Open mac port) st).
Proof.
  intros Hlast H. cbn [connect_loop _do_connect]. rewrite H, Hlast.
  reflexivity.
Qed.

(** A failed attempt that is not the last, with a delay [time.sleep]
    refuses: the exception leaves the loop. *)
Lemma connect_loop_failed_raises (mac : string) (port : option Z)
    (attempt : Z) (rest : list Z) (st : state) (e : exn) :
  (attempt <? _retry_count cfg - 1) = true ->
  sleep_error (_retry_delay cfg) = Some e ->
  established (open_primitive tr (opens (io st)) mac port) = None ->
  connect_loop cfg tr mac port (attempt :: rest) st
  = (Raises e, record_event (Open mac port) st).
Proof.
  intros Hmore He H. cbn [connect_loop _do_connect]. rewrite H, Hmore.
  rewrite (time_sleep_raises _ e) by exact He. reflexivity.
Qed.

(** One successful attempt: the connection is installed and the loop
    left with [True]. *)
Lemma connect_loop_opened (mac : string) (port : option Z)
    (attempt : Z) (rest : list Z) (st : state) (c : connection) :
  established (open_primitive tr (opens (io st)) mac port) = Some c ->
  connect_loop cfg tr mac port (attempt :: rest) st
  = (Returns true,
     {| _connections := <[mac := c]> (_connections st);
        io := io st ++ [Open mac port] |}).
Proof. intros H. cbn [connect_loop _do_connect]. rewrite H. reflexivity. Qed.

(** The loop leaves with [True] only after it has installed a connection
    for the address. *)
Lemma connect_loop_true_connected (mac : string) (port : option Z)
    (attempts : list Z) (st st' : state) :
  connect_loop cfg tr mac port attempts st = (Returns true, st') ->
  is_connected mac st' = true.
Proof.
  revert st. induction attempts as [|attempt rest IH]; intros st H.
  - discriminate.
  - cbn [connect_loop _do_connect] in H.
    destruct (established (open_primitive tr (opens (io st)) mac port))
      as [c|].
    + injection H as <-. apply is_connected_lookup. cbn [_connections].
      rewrite lookup_insert_eq. eauto.
    + destruct (attempt <? _retry_count cfg - 1); [|exact (IH _ H)].
      destruct (time_sleep (_retry_delay cfg)
                  (record_event (Open mac port) st)) as [[[]|e] st1];
        [exact (IH _ H) | discriminate].
Qed.

Lemma connect_true_connected (mac : string) (port : option Z)
    (st st' : state) :
  connect cfg tr mac port st = (Returns true, st') ->
  is_connected mac st' = true.
Proof.
  unfold connect. destruct (is_connected mac st) eqn:E.
  - intros [= <-]. exact E.
  - apply connect_loop_true_connected.
Qed.

Lemma connect_already_connected (mac : string) (port : option Z)
    (st : state) :
  is_connected mac st = true ->
  connect cfg tr mac port st = (Returns true, st).
Proof. intros H. unfold connect. rewrite H. reflexivity. Qed.

(** [_do_disconnect] swallows whatever the closing method raises. *)
Lemma _do_disconnect_returns (c : connection) (st : state) :
  exists log : list event,
    _do_disconnect c st
    = (Returns tt, {| _connections := _connections st; io := io st ++ log |})
    /\ (closings log <= 1)%nat.
Proof.
  unfold _do_disconnect, call_closing, record_event.
  destruct (has_close c); [|destruct (has_disconnect c)].
  - exists [Close c]. destruct (close_raises c); split; reflexivity || (cbn; lia).
  - exists [Disconnect c].
    destruct (close_raises c); split; reflexivity || (cbn; lia).
  - exists []. rewrite app_nil_r. destruct st. split; [reflexivity | cbn; lia].
Qed.

End ConnectorFacts.

(** ** The lifecycle claims *)




(** C6.  For every address: once [connect] has returned [True], calling
    [connect] for the same address again, with no [disconnect] in
    between, returns [True] and leaves the connector as it was: the same
    connection map and the same log, so no further open attempt. *)
Theorem connect_twice_is_noop (cfg : Connector.config)
    (tr : Connector.transport) (mac : string) (port port' : option Z)
    (st st' : Connector.state) :
  Connector.connect cfg tr mac port st = (Returns true, st') ->
  Connector.connect cfg tr mac port' st' = (Returns true, st')
  /\ Connector.opens (Connector.io (Connector.connect cfg tr mac port' st').2)
     = Connector.opens (Connector.io st').
Proof.
  intros H.
  rewrite (connect_already_connected cfg tr mac port' st'
             (connect_true_connected cfg tr mac port st st' H)).
  split; reflexivity.
Qed.

Lemma connect_twice_is_noop_witness :
  Connector.connect Connector.default_config Fixtures.flaky_transport
    Fixtures.test_mac None
    (Connector.connect Connector.default_config Fixtures.flaky_transport
       Fixtures.test_mac None Connector.init).2
  = (Returns true,
     (Connector.connect Connector.default_config Fixtures.flaky_transport
        Fixtures.test_mac None Connector.init).2).
Proof.
  apply (connect_twice_is_noop Connector.default_config
           Fixtures.flaky_transport Fixtures.test_mac None None Connector.init).
  reflexivity.
Defined.

(** C9.  For every address with an entry in the connection map,
    [disconnect] returns [True] and the entry is gone afterwards, whatever
    the closing method of the connection object does, also when it raises;
    for every address without an entry, [disconnect] returns [False] and
    leaves the connector untouched: no call to the transport. *)
Theorem disconnect_removes_entry (mac : string) (st : Connector.state) :
  (Connector.is_connected mac st = true ->
   exists st' : Connector.state,
     Connector.disconnect mac st = (Returns true, st')
     /\ Connector._connections st' = delete mac (Connector._connections st)
     /\ Connector.is_connected mac st' = false)
  /\ (Connector.is_connected mac st = false ->
      Connector.disconnect mac st = (Returns false, st)).
Proof.
  split; intros H; unfold Connector.disconnect; rewrite H; cbn [negb];
    [|reflexivity].
  assert (Hgone : forall log : list Connector.event,
             Connector.is_connected mac
               {| Connector._connections := delete mac (Connector._connections st);
                  Connector.io := log |} = false).
  { intros log. apply not_connected_lookup. apply lookup_delete_eq. }
  destruct (Connector._connections st !! mac) as [c|];
    [destruct (Connector.truthy c)|].
  - destruct (_do_disconnect_returns c
                {| Connector._connections := delete mac (Connector._connections st);
                   Connector.io := Connector.io st |}) as (log & -> & _).
    eexists. split; [reflexivity|]. split; [reflexivity | apply Hgone].
  - eexists. split; [reflexivity|]. split; [reflexivity | apply Hgone].
  - eexists. split; [reflexivity|]. split; [reflexivity | apply Hgone].
Qed.

Lemma disconnect_removes_entry_witness :
  (exists st' : Connector.state,
      Connector.disconnect Fixtures.test_mac Fixtures.connected_to_broken
      = (Returns true, st')
      /\ Connector._connections st'
         = delete Fixtures.test_mac
             (Connector._connections Fixtures.connected_to_broken)
      /\ Connector.is_connected Fixtures.test_mac st' = false)
  /\ Connector.disconnect Fixtures.test_mac Connector.init
     = (Returns false, Connector.init).
Proof.
  split.
  - apply (proj1 (disconnect_removes_entry Fixtures.test_mac
                    Fixtures.connected_to_broken)).
    vm_compute. reflexivity.
  - apply (proj2 (disconnect_removes_entry Fixtures.test_mac Connector.init)).
    vm_compute. reflexivity.
Defined.

(** The closing call of the broken connection does raise; it is
    [_do_disconnect] that keeps the exception from [disconnect]. *)
Example ex_broken_close_raises :
  (Connector.call_closing Fixtures.broken_connection
     (Connector.Close Fixtures.broken_connection) Connector.init).1
  = Raises TransportError.
Proof. reflexivity. Qed.

Example ex_disconnect_broken_log :
  Connector.io (Connector.disconnect Fixtures.test_mac
                  Fixtures.connected_to_broken).2
  = [Connector.Close Fixtures.broken_connection].
Proof. reflexivity. Qed.

(** ** The data channel claims *)

Section ChannelFacts.

Import DataHandler.

Lemma stop_listening_no_queue (mac : string) (st : state) :
  _receive_queues (stop_listening mac st) !! mac = None.
Proof.
  unfold stop_listening, set_queues, set_threads. cbn [_receive_queues].
  apply lookup_delete_eq.
Qed.

Lemma receive_no_queue (mac : string) (size timeout : Z) (st : state) :
  _receive_queues st !! mac = None ->
  receive mac size timeout st = (Returns None, st).
Proof. intros H. unfold receive. rewrite H. reflexivity. Qed.

(** [send] does not look at any connection: with an observer that
    returns, the observer is called and the answer is [True]. *)
Lemma send_notifies (mac : string) (data : bytes) (st : state)
    (cb : observer) :
  _on_data_sent st = Some cb -> cb mac data = false ->
  send mac data st = (Returns true, record_event (DataSent mac data) st).
Proof.
  intros Hcb Hok. unfold send, notify. rewrite Hcb, Hok. reflexivity.
Qed.

End ChannelFacts.

(** C7, as the code has it.  For every address and payload, when the
    address is not connected, [BluetoothManager.send_data], which asks the
    connector before it hands the payload to the channel, returns [False]
    and leaves the manager as it was: nothing is written to a transport
    and the data-sent observer is not called. *)
Theorem send_data_unconnected (mac : string) (data : bytes)
    (st : BluetoothManager.state) :
  BluetoothManager.is_connected mac st = false ->
  BluetoothManager.send_data mac data st = (Returns false, st).
Proof.
  intros H. unfold BluetoothManager.send_data. rewrite H. reflexivity.
Qed.

Lemma send_data_unconnected_witness :
  BluetoothManager.send_data Fixtures.test_mac [x01; x02]
    Fixtures.observed_manager
  = (Returns false, Fixtures.observed_manager).
Proof.
  apply (send_data_unconnected Fixtures.test_mac [x01; x02]
           Fixtures.observed_manager).
  vm_compute. reflexivity.
Defined.

(** C7, as it is written, fails on the channel itself: on a manager with
    no device connected, [DataHandler.send] returns [True] and calls the
    data-sent observer. *)
Lemma channel_send_ignores_connection :
  BluetoothManager.is_connected Fixtures.test_mac Fixtures.observed_manager
  = false
  /\ (DataHandler.send Fixtures.test_mac [x01; x02]
        (BluetoothManager.data_handler Fixtures.observed_manager)).1
     = Returns true
  /\ DataHandler.io
       (DataHandler.send Fixtures.test_mac [x01; x02]
          (BluetoothManager.data_handler Fixtures.observed_manager)).2
     = [DataHandler.DataSent Fixtures.test_mac [x01; x02]].
Proof. repeat split. Qed.

(** C8.  For every address that has no receive queue, [receive] returns
    [None] and leaves the handler as it was: it does not wait on a queue
    and does not call the data-received observer.  This is so in
    particular right after [stop_listening] for that address. *)
Theorem receive_without_listener (mac : string) (size timeout : Z)
    (st : DataHandler.state) :
  (DataHandler._receive_queues st !! mac = None ->
   DataHandler.receive mac size timeout st = (Returns None, st))
  /\ DataHandler.receive mac size timeout (DataHandler.stop_listening mac st)
     = (Returns None, DataHandler.stop_listening mac st).
Proof.
  split.
  - apply receive_no_queue.
  - apply receive_no_queue, stop_listening_no_queue.
Qed.

Lemma receive_without_listener_witness :
  DataHandler.receive Fixtures.test_mac 1024 5 DataHandler.init
  = (Returns None, DataHandler.init)
  /\ DataHandler.receive Fixtures.test_mac 1024 5
       (DataHandler.stop_listening Fixtures.test_mac Fixtures.listening)
     = (Returns None,
        DataHandler.stop_listening Fixtures.test_mac Fixtures.listening).
Proof.
  split.
  - apply (proj1 (receive_without_listener Fixtures.test_mac 1024 5
                    DataHandler.init)).
    vm_compute. reflexivity.
  - apply (proj2 (receive_without_listener Fixtures.test_mac 1024 5
                    Fixtures.listening)).
Defined.

(** With a listener and an empty queue, by contrast, [receive] waits. *)
Example ex_receive_waits :
  DataHandler.io (DataHandler.receive Fixtures.test_mac 1024 5
                    Fixtures.listening).2
  = [DataHandler.ThreadStart Fixtures.test_mac;
     DataHandler.QueueWait Fixtures.test_mac 5].
Proof. reflexivity. Qed.

(** * Further properties of the code *)

#[local] Set Warnings "-clear-no-such-hyp".

(** ** Checksum and CRC *)

Section ChecksumFacts.

Lemma sum_from (data : bytes) (a : Z) :
  fold_left (fun acc b => acc + byte_val b) data a = a + Py.sum data.
Proof.
  unfold Py.sum. revert a. induction data as [|b data IH]; intros a.
  - simpl. lia.
  - cbn [fold_left]. rewrite IH, (IH (0 + byte_val b)). lia.
Qed.

Lemma sum_app (a b : bytes) : Py.sum (a ++ b) = Py.sum a + Py.sum b.
Proof. unfold Py.sum at 1. rewrite fold_left_app. apply sum_from. Qed.

Lemma sum_cons (b : byte) (data : bytes) :
  Py.sum (b :: data) = byte_val b + Py.sum data.
Proof. apply (sum_app [b] data). Qed.

Lemma sum_permutation (a b : bytes) : a ≡ₚ b -> Py.sum a = Py.sum b.
Proof.
  induction 1 as [|x l l' _ IH|x y l|l l' l'' _ IH1 _ IH2].
  - reflexivity.
  - rewrite !sum_cons, IH. reflexivity.
  - rewrite !sum_cons. lia.
  - congruence.
Qed.

Lemma land_255 (n : Z) : Z.land n 255 = n mod 256.
Proof. change 255 with (Z.ones 8). rewrite Z.land_ones by lia. reflexivity. Qed.

(** Exclusive or stays within [n] bits. *)
Lemma lxor_bound (n a b : Z) :
  0 <= n -> 0 <= a < 2 ^ n -> 0 <= b < 2 ^ n -> 0 <= Z.lxor a b < 2 ^ n.
Proof.
  intros Hn Ha Hb.
  assert (0 <= Z.lxor a b) as Hpos by (apply Z.lxor_nonneg; lia).
  split; [exact Hpos|].
  assert (Z.lxor a b = Z.lxor a b mod 2 ^ n) as ->.
  { apply Z.bits_inj'. intros i Hi.
    destruct (Z_lt_le_dec i n) as [Hlow|Hhigh].
    - rewrite Z.mod_pow2_bits_low by lia. reflexivity.
    - rewrite Z.mod_pow2_bits_high by lia. rewrite Z.lxor_spec.
      rewrite <- (Z.mod_small a (2 ^ n)), <- (Z.mod_small b (2 ^ n)) by lia.
      rewrite !Z.mod_pow2_bits_high by lia. reflexivity. }
  apply Z.mod_pos_bound. apply Z.pow_pos_nonneg; lia.
Qed.

Lemma crc_shift_bound (crc : Z) :
  0 <= crc < 2 ^ 16 -> 0 <= crc_shift crc < 2 ^ 16.
Proof.
  intros H. unfold crc_shift.
  assert (0 <= Z.shiftr crc 1 < 2 ^ 15) as Hs.
  { rewrite Z.shiftr_div_pow2 by lia. change (2 ^ 1) with 2.
    split; [apply Z.div_pos; lia|].
    apply Z.div_lt_upper_bound; [lia|]. change (2 * 2 ^ 15) with (2 ^ 16). lia. }
  destruct (negb (Z.land crc 1 =? 0)).
  - apply lxor_bound; [lia | | ].
    + change (2 ^ 16) with (2 * 2 ^ 15). lia.
    + change (2 ^ 16) with 65536. lia.
  - change (2 ^ 16) with (2 * 2 ^ 15). lia.
Qed.

Lemma crc_byte_bound (crc : Z) (b : byte) :
  0 <= crc < 2 ^ 16 -> 0 <= crc_byte crc b < 2 ^ 16.
Proof.
  intros H. unfold crc_byte.
  assert (0 <= Z.lxor crc (byte_val b) < 2 ^ 16) as H0.
  { apply lxor_bound; [lia | exact H |].
    pose proof (byte_val_range b). change (2 ^ 16) with 65536. lia. }
  generalize dependent (Z.lxor crc (byte_val b)). intros x Hx.
  do 8 (apply crc_shift_bound). exact Hx.
Qed.

Lemma crc_fold_bound (data : bytes) (crc : Z) :
  0 <= crc < 2 ^ 16 -> 0 <= fold_left crc_byte data crc < 2 ^ 16.
Proof.
  revert crc. induction data as [|b data IH]; intros crc H; simpl.
  - exact H.
  - apply IH, crc_byte_bound, H.
Qed.

(** A round on an even register only shifts. *)
Lemma crc_shift_even (y : Z) : crc_shift (2 * y) = y.
Proof.
  unfold crc_shift.
  assert (Z.land (2 * y) 1 = 0) as ->.
  { change 1 with (Z.ones 1). rewrite Z.land_ones by lia.
    change (2 ^ 1) with 2. rewrite Z.mul_comm. apply Z.mod_mul. lia. }
  cbn [Z.eqb negb]. rewrite Z.shiftr_div_pow2 by lia. change (2 ^ 1) with 2.
  rewrite Z.mul_comm. apply Z.div_mul. lia.
Qed.

Lemma crc_shift_iter (k : nat) (x : Z) :
  Nat.iter k crc_shift (x * 2 ^ Z.of_nat k) = x.
Proof.
  revert x. induction k as [|k IH]; intros x.
  - simpl. lia.
  - rewrite Nat2Z.inj_succ, Z.pow_succ_r by lia.
    replace (x * (2 * 2 ^ Z.of_nat k)) with ((2 * x) * 2 ^ Z.of_nat k) by lia.
    rewrite Nat.iter_succ, IH. apply crc_shift_even.
Qed.

(** Exclusive or with the low byte clears the low byte. *)
Lemma lxor_low_byte (c : Z) : Z.lxor c (c mod 256) = (c / 256) * 256.
Proof.
  change 256 with (2 ^ 8).
  apply Z.bits_inj'. intros i Hi. rewrite Z.lxor_spec.
  destruct (Z_lt_le_dec i 8) as [Hlow|Hhigh].
  - rewrite Z.mod_pow2_bits_low, Z.mul_pow2_bits_low by lia.
    apply xorb_nilpotent.
  - rewrite Z.mod_pow2_bits_high by lia. rewrite xorb_false_r.
    replace i with (8 + (i - 8)) at 2 by lia.
    rewrite Z.mul_pow2_bits_add by lia.
    rewrite Z.div_pow2_bits by lia. f_equal. lia.
Qed.

End ChecksumFacts.

(** X1.  The checksum is a byte value, the checksum of nothing is 0, and
    the checksum of a concatenation is the sum of the two checksums, taken
    in eight bits. *)
Theorem checksum_of_concatenation (a b : bytes) :
  0 <= calculate_checksum a < 256
  /\ calculate_checksum [] = 0
  /\ calculate_checksum (a ++ b)
     = Z.land (calculate_checksum a + calculate_checksum b) 255.
Proof.
  split; [apply checksum_range|]. split; [reflexivity|].
  unfold calculate_checksum. rewrite sum_app, !land_255.
  rewrite <- Z.add_mod by lia. reflexivity.
Qed.

(** X2.  The checksum does not see the order of the bytes: two payloads
    with the same bytes in another order have the same checksum. *)
Theorem checksum_blind_to_order (a b : bytes) :
  a ≡ₚ b -> calculate_checksum a = calculate_checksum b.
Proof.
  intros H. unfold calculate_checksum. rewrite (sum_permutation a b H).
  reflexivity.
Qed.

Lemma checksum_blind_to_order_witness :
  calculate_checksum [x01; x02; xff] = calculate_checksum [xff; x01; x02].
Proof.
  apply (checksum_blind_to_order [x01; x02; xff] [xff; x01; x02]).
  symmetry. apply (Permutation_cons_append [x01; x02] xff).
Defined.

(** X3.  The CRC of every byte string is a 16-bit value. *)
Theorem crc16_is_16_bits (data : bytes) :
  0 <= calculate_crc16 data < 65536.
Proof.
  unfold calculate_crc16. change 65536 with (2 ^ 16).
  apply crc_fold_bound. change (2 ^ 16) with 65536. lia.
Qed.

(** X4.  A byte string followed by its own CRC, low byte first, has
    CRC 0. *)
Theorem crc16_of_data_and_crc (data : bytes) :
  calculate_crc16
    (data ++ [low_byte (calculate_crc16 data mod 256);
              low_byte (calculate_crc16 data / 256)])
  = 0.
Proof.
  assert (0 <= fold_left crc_byte data 65535 < 65536) as Hc.
  { change 65536 with (2 ^ 16). apply crc_fold_bound.
    change (2 ^ 16) with 65536. lia. }
  unfold calculate_crc16. rewrite fold_left_app.
  set (c := fold_left crc_byte data 65535) in *.
  cbn [fold_left].
  assert (crc_byte c (low_byte (c mod 256)) = c / 256) as ->.
  { unfold crc_byte.
    rewrite low_byte_val by (apply Z.mod_pos_bound; lia).
    rewrite lxor_low_byte. apply (crc_shift_iter 8). }
  unfold crc_byte.
  rewrite low_byte_val
    by (split; [apply Z.div_pos; lia | apply Z.div_lt_upper_bound; lia]).
  rewrite Z.lxor_nilpotent. reflexivity.
Qed.

Example ex_crc16_check_value :
  calculate_crc16 [x31; x32; x33; x34; x35; x36; x37; x38; x39] = 19255.
Proof. reflexivity. Qed.

(** ** Hexadecimal text *)

Section HexFacts.

(** One byte written by [encode_hex] is read back by [decode_hex]. *)
Lemma decode_hex_pair (b : byte) (rest : string) :
  decode_hex
    (String.String (hex_digit (byte_val b / 16))
       (String.String (hex_digit (byte_val b mod 16)) rest))
  = (tail ← decode_hex rest; Returns (b :: tail)).
Proof. destruct b; reflexivity. Qed.

Lemma length_encode_hex (data : bytes) :
  String.length (encode_hex data) = (2 * length data)%nat.
Proof.
  induction data as [|b data IH]; [reflexivity|].
  cbn [encode_hex String.length length]. rewrite IH. lia.
Qed.

End HexFacts.

(** X5.  Hexadecimal text round trip: [decode_hex(encode_hex(data))] is
    [data] for every byte string, and the text has two characters a
    byte. *)
Theorem hex_roundtrip (data : bytes) :
  decode_hex (encode_hex data) = Returns data
  /\ String.length (encode_hex data) = (2 * length data)%nat.
Proof.
  split; [|apply length_encode_hex].
  induction data as [|b data IH]; [reflexivity|].
  cbn [encode_hex]. rewrite decode_hex_pair, IH. reflexivity.
Qed.

Example ex_encode_hex : encode_hex [x00; x1f; xab] = "001fab"%string.
Proof. reflexivity. Qed.

Example ex_decode_hex_spaces_and_case :
  decode_hex "00 1F  ab"%string = Returns [x00; x1f; xab].
Proof. reflexivity. Qed.

Example ex_decode_hex_odd : decode_hex "abc"%string = Raises ValueError.
Proof. reflexivity. Qed.

Example ex_decode_hex_split_pair : decode_hex "a b"%string = Raises ValueError.
Proof. reflexivity. Qed.

(** ** More on frames *)

Section FrameFacts.

Lemma len_length_field (data : bytes) (l : bool) :
  len (length_field data l) = if l then 4 else 0.
Proof.
  unfold length_field, len. destruct l; [|reflexivity].
  rewrite length_be_digits. reflexivity.
Qed.

Lemma len_checksum_field (data : bytes) (c : bool) :
  len (checksum_field data c) = if c then 1 else 0.
Proof. destruct c; reflexivity. Qed.

(** Every frame [pack_data] builds is read back. *)
Lemma unpack_data_frame (data : bytes) (c l : bool) :
  (l = true -> len data < 2 ^ 32) ->
  unpack_data (length_field data l ++ data ++ checksum_field data c) c l
  = Returns (Some data).
Proof.
  intros Hfit. destruct c.
  - unfold checksum_field.
    rewrite unpack_data_checked
      by (unfold length_field; destruct l; [apply length_be_digits | reflexivity]).
    rewrite low_byte_val by apply checksum_range.
    rewrite Z.eqb_refl. reflexivity.
  - unfold checksum_field. rewrite app_nil_r. destruct l.
    + unfold length_field. apply unpack_data_counted.
      * apply length_be_digits.
      * pose proof (len_nonneg data). specialize (Hfit eq_refl).
        rewrite from_bytes_be_digits by lia.
        change (256 ^ Z.of_nat 4) with (2 ^ 32).
        apply Z.mod_small. lia.
    + apply unpack_data_bare.
Qed.

Lemma from_bytes_nonneg (s : bytes) : 0 <= from_bytes s.
Proof.
  induction s as [|b s IH] using rev_ind; [reflexivity|].
  rewrite from_bytes_snoc. pose proof (byte_val_range b). lia.
Qed.

(** A slice is a contiguous part of the sequence, starting at the
    normalised lower bound. *)
Lemma slice_segment {A} (s : list A) (i : Z) (j : option Z) :
  exists a b : list A,
    s = a ++ slice s (Some i) j ++ b
    /\ a = take (Z.to_nat (slice_bound (len s) i)) s.
Proof.
  unfold slice.
  set (n := Z.to_nat (slice_bound (len s) i)).
  set (m := Z.to_nat _).
  exists (take n s), (drop m (drop n s)).
  split; [|reflexivity].
  rewrite (take_drop m (drop n s)), (take_drop n s). reflexivity.
Qed.

End FrameFacts.

(** X6.  [pack_data] fails in one case only, a payload of [2^32] bytes or
    more with the length field on, and then with [OverflowError];
    otherwise the frame is the payload between the two fields, and is
    longer than the payload by the size of the fields asked for. *)
Theorem pack_data_outcome (data : bytes) (c l : bool) :
  pack_data data c l
  = (if l && (2 ^ 32 <=? len data) then Raises OverflowError
     else Returns (length_field data l ++ data ++ checksum_field data c))
  /\ len (length_field data l ++ data ++ checksum_field data c)
     = len data + fixed_fields_size c l.
Proof.
  split.
  - destruct l; cbn [andb].
    + destruct (2 ^ 32 <=? len data) eqn:E.
      * apply pack_data_overflow. apply Z.leb_le. exact E.
      * apply pack_data_frame. intros _. apply Z.leb_gt. exact E.
    + apply pack_data_frame. discriminate.
  - rewrite !len_app, len_length_field, len_checksum_field.
    unfold fixed_fields_size. lia.
Qed.

(** X7.  [pack_data] loses nothing: with the same flags, two payloads
    that give the same frame are the same payload. *)
Theorem pack_data_injective (d d' frame : bytes) (c l : bool) :
  pack_data d c l = Returns frame ->
  pack_data d' c l = Returns frame ->
  d = d'.
Proof.
  intros H H'.
  assert (Hfit : forall x : bytes,
             (exists f, pack_data x c l = Returns f) ->
             l = true -> len x < 2 ^ 32).
  { intros x (f & Hx) ->.
    destruct (Z_lt_le_dec (len x) (2 ^ 32)) as [?|Hbig]; [assumption|].
    rewrite pack_data_overflow in Hx by assumption. discriminate. }
  pose proof (unpack_data_frame d c l (Hfit d (ex_intro _ _ H))) as U.
  pose proof (unpack_data_frame d' c l (Hfit d' (ex_intro _ _ H'))) as U'.
  rewrite pack_data_frame in H by eauto.
  rewrite pack_data_frame in H' by eauto.
  injection H as H. injection H' as H'.
  rewrite H in U. rewrite H' in U'. congruence.
Qed.

Lemma pack_data_injective_witness : [x01; x02] = [x01; x02].
Proof.
  apply (pack_data_injective [x01; x02] [x01; x02]
           [x00; x00; x00; x02; x01; x02; x03] true true);
    vm_compute; reflexivity.
Defined.

(** X8.  With the length field on and the checksum off, [unpack_data]
    takes after the field as many bytes as the field says, or all there
    are if there are fewer: a frame cut short is not rejected, and bytes
    beyond the declared length are dropped. *)
Theorem unpack_data_takes_declared_length (pre rest : bytes) :
  length pre = 4%nat ->
  unpack_data (pre ++ rest) false true
  = Returns (Some (take (Z.to_nat (from_bytes pre)) rest)).
Proof.
  intros Hpre. unfold unpack_data.
  pose proof (len_nonneg rest) as Hr.
  pose proof (from_bytes_nonneg pre) as Hv.
  assert (len pre = 4) as Hp by (unfold len; rewrite Hpre; reflexivity).
  assert (len (pre ++ rest) = 4 + len rest) as Hlen
    by (rewrite len_app; lia).
  assert ((len (pre ++ rest) <? 4) = false) as -> by (apply Z.ltb_ge; lia).
  cbn [andb].
  assert (slice (pre ++ rest) None (Some 4) = pre) as ->.
  { apply slice_from_start. unfold slice_bound. rewrite Hlen.
    change (4 <? 0) with false. cbv iota. lia. }
  cbn [try_except]. do 2 f_equal.
  unfold slice, slice_bound. rewrite Hlen.
  change (4 <? 0) with false. cbv iota.
  assert ((4 + from_bytes pre <? 0) = false) as -> by (apply Z.ltb_ge; lia).
  replace (Z.to_nat (Z.max 0 (Z.min (4 + len rest) 4))) with (length pre)
    by (rewrite Hpre; lia).
  rewrite drop_app_length.
  destruct (Z_lt_le_dec (from_bytes pre) (len rest)) as [Hin|Hout].
  - f_equal. lia.
  - unfold len in *. rewrite !take_ge by lia. reflexivity.
Qed.

Lemma unpack_data_takes_declared_length_witness :
  unpack_data ([x00; x00; x00; x09] ++ [x01; x02]) false true
  = Returns (Some [x01; x02])
  /\ unpack_data ([x00; x00; x00; x01] ++ [x01; x02]) false true
     = Returns (Some [x01]).
Proof.
  split.
  - apply (unpack_data_takes_declared_length [x00; x00; x00; x09] [x01; x02]).
    reflexivity.
  - apply (unpack_data_takes_declared_length [x00; x00; x00; x01] [x01; x02]).
    reflexivity.
Defined.

(** X9.  [unpack_data] makes up no bytes: a payload it returns is a
    contiguous part of the packet, and starts right after the length
    field (at the first byte when there is no length field). *)
Theorem unpack_data_returns_part_of_packet (packet data : bytes) (c l : bool) :
  unpack_data packet c l = Returns (Some data) ->
  exists a b : bytes,
    packet = a ++ data ++ b /\ len a = if l then 4 else 0.
Proof.
  unfold unpack_data. intros H.
  destruct (l && (len packet <? 4)) eqn:Hshort; [discriminate|].
  assert (Hoff : len (take (Z.to_nat (slice_bound (len packet)
                                        (if l then 4 else 0))) packet)
                 = if l then 4 else 0).
  { pose proof (len_nonneg packet) as Hn. unfold len in *.
    rewrite length_take. unfold slice_bound.
    destruct l.
    - cbn [andb] in Hshort. apply Z.ltb_ge in Hshort.
      change (4 <? 0) with false. cbv iota. lia.
    - change (0 <? 0) with false. cbv iota. lia. }
  destruct c.
  - destruct (getitem packet (-1)) as [checksum|e]; destruct l;
      cbv beta iota zeta delta [try_except mbind outcome_bind Py.bind] in H;
      try discriminate;
      match type of H with context [negb ?t] => destruct t end;
      cbn [negb] in H; try discriminate; injection H as <-.
    + destruct (slice_segment packet 4 (Some (-1))) as (a & b & Hab & ->).
      eexists _, _. split; [exact Hab | exact Hoff].
    + destruct (slice_segment packet 0 (Some (-1))) as (a & b & Hab & ->).
      eexists _, _. split; [exact Hab | exact Hoff].
  - destruct l; cbv beta iota zeta delta [try_except] in H;
      injection H as <-.
    + destruct (slice_segment packet 4
                  (Some (4 + from_bytes (slice packet None (Some 4)))))
        as (a & b & Hab & ->).
      eexists _, _. split; [exact Hab | exact Hoff].
    + destruct (slice_segment packet 0 (Some (0 + len packet)))
        as (a & b & Hab & ->).
      eexists _, _. split; [exact Hab | exact Hoff].
Qed.

Lemma unpack_data_returns_part_of_packet_witness :
  exists a b : bytes,
    [x00; x00; x00; x02; x01; x02; x03] = a ++ [x01; x02] ++ b
    /\ len a = 4.
Proof.
  apply (unpack_data_returns_part_of_packet
           [x00; x00; x00; x02; x01; x02; x03] [x01; x02] true true).
  vm_compute. reflexivity.
Defined.

(** ** More on the data channel *)

Section ListenerFacts.

Import DataHandler.

Lemma stop_listening_keys_threads (keys : list string) (st : state) :
  _receive_threads (stop_listening_keys keys st)
  = _receive_threads st ∖ list_to_set keys.
Proof.
  unfold stop_listening_keys. revert st.
  induction keys as [|k keys IH]; intros st.
  - cbn. set_solver.
  - cbn [fold_left]. rewrite IH. cbn. set_solver.
Qed.

Lemma stop_listening_keys_queues (keys : list string) (st : state) :
  dom (_receive_queues (stop_listening_keys keys st))
  = dom (_receive_queues st) ∖ list_to_set keys.
Proof.
  unfold stop_listening_keys. revert st.
  induction keys as [|k keys IH]; intros st.
  - cbn. set_solver.
  - cbn [fold_left]. rewrite IH. cbn. rewrite dom_delete_L. set_solver.
Qed.

Lemma stop_listening_keys_rest (keys : list string) (st : state) :
  _on_data_received (stop_listening_keys keys st) = _on_data_received st
  /\ _on_data_sent (stop_listening_keys keys st) = _on_data_sent st
  /\ io (stop_listening_keys keys st) = io st.
Proof.
  unfold stop_listening_keys. revert st.
  induction keys as [|k keys IH]; intros st; [repeat split|].
  cbn [fold_left]. destruct (IH (stop_listening k st)) as (-> & -> & ->).
  repeat split.
Qed.

Lemma start_listening_consistent (mac : string) (st : state) :
  consistent st -> consistent (start_listening mac st).
Proof.
  unfold consistent, start_listening. intros H.
  case_bool_decide; [exact H|]. cbn. rewrite dom_insert_L, H. reflexivity.
Qed.

Lemma stop_listening_consistent (mac : string) (st : state) :
  consistent st -> consistent (stop_listening mac st).
Proof.
  unfold consistent, stop_listening. intros H. cbn.
  rewrite dom_delete_L, H. reflexivity.
Qed.

Lemma send_keeps_listeners (mac : string) (data : bytes) (st : state) :
  _receive_queues (send mac data st).2 = _receive_queues st
  /\ _receive_threads (send mac data st).2 = _receive_threads st.
Proof.
  unfold send, notify. destruct (_on_data_sent st); split; reflexivity.
Qed.

Lemma receive_keeps_listeners (mac : string) (size timeout : Z) (st : state) :
  dom (_receive_queues (receive mac size timeout st).2)
  = dom (_receive_queues st)
  /\ _receive_threads (receive mac size timeout st).2 = _receive_threads st.
Proof.
  unfold receive, notify.
  destruct (_receive_queues st !! mac) as [q|] eqn:Hq; [|split; reflexivity].
  destruct (timeout <? 0); [split; reflexivity|].
  destruct q as [|d q]; [split; reflexivity|].
  assert (dom (<[mac := q]> (_receive_queues st)) = dom (_receive_queues st))
    as Hdom.
  { rewrite dom_insert_L.
    assert (mac ∈ dom (_receive_queues st)) by (apply elem_of_dom; eauto).
    set_solver. }
  cbn. destruct (_on_data_received st); cbn; split; (exact Hdom || reflexivity).
Qed.

(** One payload taken from a queue that has some, by an observer that
    returns (or with no observer). *)
Lemma receive_head (mac : string) (size timeout : Z) (st : state)
    (d : bytes) (q : list bytes) :
  _receive_queues st !! mac = Some (d :: q) ->
  0 <= timeout ->
  (forall cb, _on_data_received st = Some cb -> cb mac d = false) ->
  exists st' : state,
    receive mac size timeout st = (Returns (Some d), st')
    /\ _receive_queues st' = <[mac := q]> (_receive_queues st)
    /\ _on_data_received st' = _on_data_received st.
Proof.
  intros Hq Ht Hcb. unfold receive, notify. rewrite Hq.
  assert ((timeout <? 0) = false) as -> by (apply Z.ltb_ge; lia).
  cbn. destruct (_on_data_received st) as [cb|] eqn:E.
  - rewrite (Hcb cb eq_refl). eexists.
    split; [reflexivity|]. cbn. rewrite E. split; reflexivity.
  - eexists. split; [reflexivity|]. cbn. rewrite E. split; reflexivity.
Qed.

End ListenerFacts.

(** X10.  Every operation of the handler keeps the receive queues and the
    listener threads in step: if the devices with a queue are the devices
    with a thread before [start_listening], [stop_listening], [send],
    [receive] or [cleanup], they are afterwards. *)
Theorem listeners_stay_consistent (st : DataHandler.state) :
  DataHandler.consistent st ->
  (forall mac, DataHandler.consistent (DataHandler.start_listening mac st))
  /\ (forall mac, DataHandler.consistent (DataHandler.stop_listening mac st))
  /\ (forall mac data, DataHandler.consistent (DataHandler.send mac data st).2)
  /\ (forall mac size timeout,
        DataHandler.consistent (DataHandler.receive mac size timeout st).2)
  /\ (forall mac, DataHandler.consistent (DataHandler.cleanup mac st)).
Proof.
  intros H. repeat split.
  - intros mac. apply start_listening_consistent, H.
  - intros mac. apply stop_listening_consistent, H.
  - intros mac data. unfold DataHandler.consistent.
    destruct (send_keeps_listeners mac data st) as (-> & ->). exact H.
  - intros mac size timeout. unfold DataHandler.consistent.
    destruct (receive_keeps_listeners mac size timeout st) as (-> & ->).
    exact H.
  - intros mac.
    assert (forall keys,
               DataHandler.consistent (DataHandler.stop_listening_keys keys st))
      as Hall.
    { intros keys. unfold DataHandler.consistent.
      rewrite stop_listening_keys_threads, stop_listening_keys_queues, H.
      reflexivity. }
    unfold DataHandler.cleanup. destruct mac as [mac|]; [|apply Hall].
    destruct (String.eqb mac ""); [apply Hall|].
    apply stop_listening_consistent, H.
Qed.

Lemma listeners_stay_consistent_witness :
  DataHandler.consistent
    (DataHandler.receive Fixtures.test_mac 1024 5 Fixtures.listening).2.
Proof.
  apply (listeners_stay_consistent Fixtures.listening).
  vm_compute. reflexivity.
Defined.

(** X11.  [start_listening] for a device that is listened to already
    changes nothing: calling it twice is calling it once, so the queue of
    the first call, with what it holds, is kept. *)
Theorem start_listening_twice (mac : string) (st : DataHandler.state) :
  DataHandler.start_listening mac (DataHandler.start_listening mac st)
  = DataHandler.start_listening mac st.
Proof.
  unfold DataHandler.start_listening at 1.
  assert (mac ∈ DataHandler._receive_threads
                  (DataHandler.start_listening mac st)) as Hin.
  { unfold DataHandler.start_listening. case_bool_decide as E; [exact E|].
    cbn. set_solver. }
  rewrite bool_decide_eq_true_2 by exact Hin. reflexivity.
Qed.

(** X12.  [cleanup()] stops every listener: no thread is left, and no
    queue either when queues and threads were in step.  [cleanup("")] does
    the same, the empty address counting as no address, and [cleanup] of
    any other address is [stop_listening] of it. *)
Theorem cleanup_stops_listeners (st : DataHandler.state) :
  DataHandler._receive_threads (DataHandler.cleanup None st) = ∅
  /\ (DataHandler.consistent st ->
      DataHandler._receive_queues (DataHandler.cleanup None st) = ∅)
  /\ DataHandler.cleanup (Some ""%string) st = DataHandler.cleanup None st
  /\ (forall mac : string,
        mac <> ""%string ->
        DataHandler.cleanup (Some mac) st = DataHandler.stop_listening mac st).
Proof.
  split; [|split; [|split]].
  - cbn [DataHandler.cleanup]. rewrite stop_listening_keys_threads.
    rewrite list_to_set_elements_L. set_solver.
  - intros H. cbn [DataHandler.cleanup]. apply dom_empty_inv_L.
    rewrite stop_listening_keys_queues, H, list_to_set_elements_L.
    set_solver.
  - reflexivity.
  - intros mac Hmac. cbn [DataHandler.cleanup].
    destruct (String.eqb mac "") eqn:E; [|reflexivity].
    apply String.eqb_eq in E. contradiction.
Qed.

Lemma cleanup_stops_listeners_witness :
  DataHandler._receive_queues (DataHandler.cleanup None Fixtures.listening) = ∅
  /\ DataHandler.cleanup (Some Fixtures.test_mac) Fixtures.listening
     = DataHandler.stop_listening Fixtures.test_mac Fixtures.listening.
Proof.
  split.
  - apply (proj1 (proj2 (cleanup_stops_listeners Fixtures.listening))).
    vm_compute. reflexivity.
  - apply (proj2 (proj2 (proj2 (cleanup_stops_listeners Fixtures.listening)))).
    discriminate.
Defined.

(** [send] on the channel does not raise, does not touch queues or
    threads, and answers [False] exactly when there is a data-sent
    observer and it raises. *)
Lemma send_outcome (mac : string) (data : bytes) (st : DataHandler.state) :
  (DataHandler.send mac data st).1
  = Returns (match DataHandler._on_data_sent st with
             | Some cb => negb (cb mac data)
             | None => true
             end)
  /\ DataHandler._receive_queues (DataHandler.send mac data st).2
     = DataHandler._receive_queues st
  /\ DataHandler._receive_threads (DataHandler.send mac data st).2
     = DataHandler._receive_threads st.
Proof.
  split; [|apply send_keeps_listeners].
  unfold DataHandler.send, DataHandler.notify.
  destruct (DataHandler._on_data_sent st) as [cb|]; [|reflexivity].
  destruct (cb mac data); reflexivity.
Qed.

(** X14.  First in, first out: with a queue [q] for the device, a timeout
    that is not negative and an observer that returns, [receive] called as
    often as [q] is long returns the payloads of [q] in their order and
    leaves the queue empty. *)
Theorem receive_in_order (mac : string) (size timeout : Z)
    (q : list bytes) (st : DataHandler.state) :
  DataHandler._receive_queues st !! mac = Some q ->
  0 <= timeout ->
  (forall cb d, DataHandler._on_data_received st = Some cb -> cb mac d = false) ->
  (DataHandler.receive_times (length q) mac size timeout st).1
  = map (fun d => Returns (Some d)) q
  /\ DataHandler._receive_queues
       (DataHandler.receive_times (length q) mac size timeout st).2 !! mac
     = Some [].
Proof.
  intros Hq Ht. revert st Hq.
  induction q as [|d q IH]; intros st Hq Hcb.
  - split; [reflexivity | exact Hq].
  - destruct (receive_head mac size timeout st d q Hq Ht)
      as (st' & Hr & Hqs & Hobs).
    { intros cb E. apply (Hcb cb d E). }
    cbn [length DataHandler.receive_times]. rewrite Hr.
    destruct (IH st') as (IH1 & IH2).
    { rewrite Hqs. apply lookup_insert_eq. }
    { intros cb d' E. rewrite Hobs in E. apply (Hcb cb d' E). }
    destruct (DataHandler.receive_times (length q) mac size timeout st')
      as [rs st''].
    cbn [fst snd] in *. rewrite IH1. split; [reflexivity | exact IH2].
Qed.

(** X15.  A payload is lost when the data-received observer raises:
    [receive] has taken it from the queue already, and returns [None]. *)
Theorem receive_loses_payload_when_observer_raises (mac : string)
    (size timeout : Z) (d : bytes) (q : list bytes)
    (cb : DataHandler.observer) (st : DataHandler.state) :
  DataHandler._receive_queues st !! mac = Some (d :: q) ->
  0 <= timeout ->
  DataHandler._on_data_received st = Some cb ->
  cb mac d = true ->
  (DataHandler.receive mac size timeout st).1 = Returns None
  /\ DataHandler._receive_queues
       (DataHandler.receive mac size timeout st).2 !! mac = Some q.
Proof.
  intros Hq Ht Hobs Hcb. unfold DataHandler.receive, DataHandler.notify.
  rewrite Hq.
  assert ((timeout <? 0) = false) as -> by (apply Z.ltb_ge; lia).
  cbn. rewrite Hobs, Hcb. cbn. split; [reflexivity | apply lookup_insert_eq].
Qed.

Lemma receive_in_order_witness :
  (DataHandler.receive_times 3 Fixtures.test_mac 1024 5 Fixtures.queued).1
  = [Returns (Some [x41]); Returns (Some [x42]); Returns (Some [x43])].
Proof.
  apply (receive_in_order Fixtures.test_mac 1024 5
           [[x41]; [x42]; [x43]] Fixtures.queued).
  - reflexivity.
  - vm_compute. discriminate.
  - intros cb d H. injection H as <-. reflexivity.
Defined.

Lemma receive_loses_payload_when_observer_raises_witness :
  (DataHandler.receive Fixtures.test_mac 1024 5 Fixtures.queued_raising).1
  = Returns None
  /\ DataHandler._receive_queues
       (DataHandler.receive Fixtures.test_mac 1024 5
          Fixtures.queued_raising).2 !! Fixtures.test_mac
     = Some [[x42]; [x43]].
Proof.
  apply (receive_loses_payload_when_observer_raises Fixtures.test_mac 1024 5
           [x41] [[x42]; [x43]] Fixtures.raising_observer
           Fixtures.queued_raising).
  - reflexivity.
  - vm_compute. discriminate.
  - reflexivity.
  - reflexivity.
Defined.

(** ** More on the connection lifecycle *)

Section RetryFacts.

Import Connector.

Variable cfg : config.
Variable tr : transport.



Lemma closings_app (log log' : list event) :
  closings (log ++ log') = (closings log + closings log')%nat.
Proof. unfold closings. rewrite filter_app, length_app. reflexivity. Qed.





(** What the loop does whatever the transport answers and whatever the
    delay is. *)
Lemma connect_loop_any (mac : string) (port : option Z)
    (attempts : list Z) (st : state) :
  exists (r : outcome bool) (st' : state),
    connect_loop cfg tr mac port attempts st = (r, st')
    /\ (opens (io st') <= opens (io st) + length attempts)%nat
    /\ match r with
       | Returns true =>
           exists c, truthy c = true
                     /\ _connections st' = <[mac := c]> (_connections st)
       | Returns false => _connections st' = _connections st
       | Raises e =>
           sleep_error (_retry_delay cfg) = Some e
           /\ _connections st' = _connections st
       end.
Proof.
  revert st. induction attempts as [|attempt rest IH]; intros st.
  - exists (Returns false), st. cbn. repeat split; lia.
  - destruct (established (open_primitive tr (opens (io st)) mac port))
      as [c|] eqn:E.
    + rewrite (connect_loop_opened cfg tr mac port _ _ st c E).
      eexists (Returns true), _. split; [reflexivity|].
      cbn [_connections io length].
      rewrite opens_snoc_open. split; [lia|]. exists c. split; [|reflexivity].
      unfold established in E.
      destruct (open_primitive tr (opens (io st)) mac port) as [[c'|]|];
        try discriminate.
      destruct (truthy c') eqn:T; [|discriminate]. congruence.
    + assert (Hgo : forall st1 : state,
                 opens (io st1) = S (opens (io st)) ->
                 _connections st1 = _connections st ->
                 exists (r : outcome bool) (st' : state),
                   connect_loop cfg tr mac port rest st1 = (r, st')
                   /\ (opens (io st') <= opens (io st) + length (attempt :: rest))%nat
                   /\ match r with
                      | Returns true =>
                          exists c, truthy c = true
                                    /\ _connections st'
                                       = <[mac := c]> (_connections st)
                      | Returns false => _connections st' = _connections st
                      | Raises e =>
                          sleep_error (_retry_delay cfg) = Some e
                          /\ _connections st' = _connections st
                      end).
      { intros st1 Ho1 Hc1.
        destruct (IH st1) as (r & st' & Heq & Ho & Hr).
        exists r, st'. split; [exact Heq|]. cbn [length].
        split; [lia|]. rewrite Hc1 in Hr. exact Hr. }
      destruct (attempt <? _retry_count cfg - 1) eqn:Hmore.
      * destruct (sleep_error (_retry_delay cfg)) as [e|] eqn:Herr.
        -- rewrite (connect_loop_failed_raises cfg tr mac port _ _ st e
                      Hmore Herr E).
           eexists (Raises e), _. split; [reflexivity|].
           cbn [record_event io _connections length].
           rewrite opens_snoc_open. split; [lia|]. split; reflexivity.
        -- destruct (proj1 (sleep_error_none _) Herr) as (s & Hd & Hs).
           rewrite (connect_loop_failed cfg tr mac port _ _ st s Hd Hs E).
           rewrite Hmore. apply Hgo; cbn [record_event io _connections].
           ++ rewrite opens_snoc_sleep, opens_snoc_open. reflexivity.
           ++ reflexivity.
      * rewrite (connect_loop_failed_last cfg tr mac port _ _ st Hmore E).
        apply Hgo; cbn [record_event io _connections].
        -- apply opens_snoc_open.
        -- reflexivity.
Qed.


End RetryFacts.





(** A [connect] that returns [True] on an address that was not connected
    has installed a connection for it. *)
Lemma connect_installs (cfg : Connector.config) (tr : Connector.transport)
    (mac : string) (port : option Z) (st st' : Connector.state) :
  Connector.is_connected mac st = false ->
  Connector.connect cfg tr mac port st = (Returns true, st') ->
  exists c : Connector.connection,
    Connector._connections st' = <[mac := c]> (Connector._connections st).
Proof.
  intros Hfree H. unfold Connector.connect in H. rewrite Hfree in H.
  destruct (connect_loop_any cfg tr mac port
              (Connector.range (Connector._retry_count cfg)) st)
    as (r & st'' & Heq & _ & Hr).
  rewrite Heq in H. injection H as -> ->.
  destruct Hr as (c & _ & Hc). eauto.
Qed.

(** A [disconnect] of an address that has an entry removes the entry and
    makes at most one closing call. *)
Lemma disconnect_removes (mac : string) (st : Connector.state) :
  is_Some (Connector._connections st !! mac) ->
  exists log : list Connector.event,
    Connector.disconnect mac st
    = (Returns true,
       {| Connector._connections := delete mac (Connector._connections st);
          Connector.io := Connector.io st ++ log |})
    /\ (Connector.closings log <= 1)%nat.
Proof.
  intros H. unfold Connector.disconnect.
  assert (Connector.is_connected mac st = true) as ->
    by (apply is_connected_lookup; exact H).
  cbn [negb].
  destruct (Connector._connections st !! mac) as [c|];
    [destruct (Connector.truthy c)|].
  - destruct (_do_disconnect_returns c
                {| Connector._connections := delete mac (Connector._connections st);
                   Connector.io := Connector.io st |}) as (log & -> & Hlog).
    exists log. split; [reflexivity | exact Hlog].
  - exists []. rewrite app_nil_r. split; [reflexivity | cbn; lia].
  - exists []. rewrite app_nil_r. split; [reflexivity | cbn; lia].
Qed.


Example ex_connect_type_error :
  (Connector.connect
     {| Connector._retry_count := 3;
        Connector._retry_delay := Connector.NotANumber |}
     Fixtures.stub_transport Fixtures.test_mac None Connector.init).1
  = Raises TypeError.
Proof. reflexivity. Qed.

(** X19.  What [disconnect] calls on the connection object it removes:
    [close()] if the object has it, also when it has [disconnect()] too;
    [disconnect()] if it has only that; nothing if it has neither, or if
    the object counts as false.  In every case the entry is removed and
    the answer is [True]. *)
Theorem disconnect_closing_calls (mac : string) (c : Connector.connection)
    (st : Connector.state) :
  Connector._connections st !! mac = Some c ->
  Connector.disconnect mac st
  = (Returns true,
     {| Connector._connections := delete mac (Connector._connections st);
        Connector.io := Connector.io st ++ Connector.closing_calls c |}).
Proof.
  intros H. unfold Connector.disconnect.
  assert (Connector.is_connected mac st = true) as ->
    by (apply is_connected_lookup; eauto).
  rewrite H. cbn [negb].
  unfold Connector.closing_calls, Connector._do_disconnect,
    Connector.call_closing, Connector.record_event.
  destruct (Connector.truthy c); [|rewrite app_nil_r; reflexivity].
  destruct (Connector.has_close c);
    [destruct (Connector.close_raises c); reflexivity|].
  destruct (Connector.has_disconnect c);
    [destruct (Connector.close_raises c); reflexivity|].
  rewrite app_nil_r. reflexivity.
Qed.

Lemma disconnect_closing_calls_witness :
  Connector.disconnect Fixtures.test_mac
    {| Connector._connections :=
         {[ Fixtures.test_mac := Fixtures.both_methods_connection ]};
       Connector.io := [] |}
  = (Returns true,
     {| Connector._connections := delete Fixtures.test_mac
          {[ Fixtures.test_mac := Fixtures.both_methods_connection ]};
        Connector.io := [Connector.Close Fixtures.both_methods_connection] |})
  /\ Connector.io (Connector.disconnect Fixtures.other_mac
                     Fixtures.two_connections).2 = [].
Proof.
  split.
  - apply (disconnect_closing_calls Fixtures.test_mac
             Fixtures.both_methods_connection).
    reflexivity.
  - rewrite (disconnect_closing_calls Fixtures.other_mac
               Fixtures.false_connection Fixtures.two_connections eq_refl).
    reflexivity.
Defined.

(** X20.  Connecting an address that was not connected and disconnecting
    it again gives the connection map back as it was. *)
Theorem connect_then_disconnect (cfg : Connector.config)
    (tr : Connector.transport) (mac : string) (port : option Z)
    (st st1 : Connector.state) :
  Connector.is_connected mac st = false ->
  Connector.connect cfg tr mac port st = (Returns true, st1) ->
  exists st2 : Connector.state,
    Connector.disconnect mac st1 = (Returns true, st2)
    /\ Connector._connections st2 = Connector._connections st.
Proof.
  intros Hfree Hcon.
  destruct (connect_installs cfg tr mac port st st1 Hfree Hcon) as (c & Hc).
  apply not_connected_lookup in Hfree.
  destruct (disconnect_removes mac st1) as (log & -> & _).
  { rewrite Hc, lookup_insert_eq. eauto. }
  eexists. split; [reflexivity|]. cbn [Connector._connections].
  rewrite Hc. apply delete_insert_id. exact Hfree.
Qed.

Lemma connect_then_disconnect_witness :
  exists st2 : Connector.state,
    Connector.disconnect Fixtures.test_mac
      (Connector.connect Connector.default_config Fixtures.flaky_transport
         Fixtures.test_mac None Connector.init).2
    = (Returns true, st2)
    /\ Connector._connections st2 = ∅.
Proof.
  apply (connect_then_disconnect Connector.default_config
           Fixtures.flaky_transport Fixtures.test_mac None Connector.init).
  - reflexivity.
  - reflexivity.
Defined.

(** X21.  The connection count follows the calls: a [connect] that
    returns [True] on an address that was not connected adds one, a
    [disconnect] of a connected address takes one away, and a [disconnect]
    of an address that is not connected changes nothing. *)
Theorem connection_count_follows (cfg : Connector.config)
    (tr : Connector.transport) (mac : string) (port : option Z)
    (st : Connector.state) :
  (forall st' : Connector.state,
      Connector.is_connected mac st = false ->
      Connector.connect cfg tr mac port st = (Returns true, st') ->
      Connector.get_connection_count st'
      = Connector.get_connection_count st + 1)
  /\ (Connector.is_connected mac st = true ->
      Connector.get_connection_count (Connector.disconnect mac st).2
      = Connector.get_connection_count st - 1)
  /\ (Connector.is_connected mac st = false ->
      Connector.get_connection_count (Connector.disconnect mac st).2
      = Connector.get_connection_count st).
Proof.
  unfold Connector.get_connection_count. split; [|split].
  - intros st' Hfree Hcon.
    destruct (connect_installs cfg tr mac port st st' Hfree Hcon) as (c & Hc).
    apply not_connected_lookup in Hfree.
    rewrite Hc, map_size_insert_None by exact Hfree. lia.
  - intros Hcon. apply is_connected_lookup in Hcon.
    destruct (disconnect_removes mac st Hcon) as (log & -> & _).
    cbn [snd Connector._connections].
    rewrite map_size_delete_Some by exact Hcon.
    assert (size (Connector._connections st) <> 0%nat).
    { intros E. apply map_size_empty_inv in E. rewrite E in Hcon.
      rewrite lookup_empty in Hcon. destruct Hcon as [? ?]. discriminate. }
    lia.
  - intros Hfree. unfold Connector.disconnect. rewrite Hfree. reflexivity.
Qed.

Lemma connection_count_follows_witness :
  Connector.get_connection_count
    (Connector.connect Connector.default_config Fixtures.ready_transport
       Fixtures.test_mac None Connector.init).2 = 0 + 1
  /\ Connector.get_connection_count
       (Connector.disconnect Fixtures.test_mac Fixtures.two_connections).2
     = 2 - 1
  /\ Connector.get_connection_count
       (Connector.disconnect Fixtures.test_mac Connector.init).2 = 0.
Proof.
  split; [|split].
  - apply (proj1 (connection_count_follows Connector.default_config
                    Fixtures.ready_transport Fixtures.test_mac None
                    Connector.init)).
    + reflexivity.
    + reflexivity.
  - apply (proj1 (proj2 (connection_count_follows Connector.default_config
                           Fixtures.ready_transport Fixtures.test_mac None
                           Fixtures.two_connections))).
    reflexivity.
  - apply (proj2 (proj2 (connection_count_follows Connector.default_config
                           Fixtures.ready_transport Fixtures.test_mac None
                           Connector.init))).
    reflexivity.
Defined.

Section DisconnectAllFacts.

Import Connector.

(** The loop of [disconnect_all] over any list of addresses: it returns,
    removes the listed addresses and no other, and makes at most one
    closing call for each entry it removes. *)
Lemma disconnect_keys_result (keys : list string) (st : state) :
  exists st' : state,
    disconnect_keys keys st = (Returns tt, st')
    /\ dom (_connections st') = dom (_connections st) ∖ list_to_set keys
    /\ (forall k, k ∉ keys -> _connections st' !! k = _connections st !! k)
    /\ (closings (io st') + size (_connections st')
        <= closings (io st) + size (_connections st))%nat.
Proof.
  revert st. induction keys as [|key keys IH]; intros st.
  - exists st. split; [reflexivity|]. split; [set_solver|].
    split; [reflexivity | lia].
  - cbn [disconnect_keys].
    destruct (_connections st !! key) as [c|] eqn:Hkey.
    + destruct (disconnect_removes key st) as (log & -> & Hlog); [eauto|].
      destruct (IH {| _connections := delete key (_connections st);
                      io := io st ++ log |})
        as (st' & -> & Hdom & Hrest & Hcount).
      exists st'. split; [reflexivity|].
      cbn [_connections io] in *.
      split; [rewrite Hdom, dom_delete_L; set_solver|].
      split.
      * intros k Hk. apply not_elem_of_cons in Hk as [Hne Hk].
        rewrite (Hrest k Hk). apply lookup_delete_ne. congruence.
      * rewrite closings_app in Hcount.
        rewrite map_size_delete_Some in Hcount by eauto.
        assert (size (_connections st) <> 0%nat).
        { intros E. apply map_size_empty_inv in E. rewrite E in Hkey.
          rewrite lookup_empty in Hkey. discriminate. }
        lia.
    + assert (disconnect key st = (Returns false, st)) as ->.
      { unfold disconnect.
        assert (is_connected key st = false) as ->
          by (apply not_connected_lookup; exact Hkey).
        reflexivity. }
      destruct (IH st) as (st' & -> & Hdom & Hrest & Hcount).
      exists st'. split; [reflexivity|].
      split.
      { rewrite Hdom. apply not_elem_of_dom in Hkey. set_solver. }
      split; [|exact Hcount].
      intros k Hk. apply not_elem_of_cons in Hk as [_ Hk]. apply Hrest, Hk.
Qed.

End DisconnectAllFacts.

(** X22.  [disconnect_all] (and [cleanup], which calls it) returns and
    leaves the connection map empty, with at most one closing call for
    each connection there was; and so does its loop in whatever order it
    is given the addresses of the map. *)
Theorem disconnect_all_empties (st : Connector.state) :
  (exists st' : Connector.state,
      Connector.disconnect_all st = (Returns tt, st')
      /\ Connector._connections st' = ∅
      /\ (Connector.closings (Connector.io st')
          <= Connector.closings (Connector.io st)
             + size (Connector._connections st))%nat)
  /\ (forall keys : list string,
        (forall k, is_Some (Connector._connections st !! k) -> k ∈ keys) ->
        exists st' : Connector.state,
          Connector.disconnect_keys keys st = (Returns tt, st')
          /\ Connector._connections st' = ∅
          /\ (Connector.closings (Connector.io st')
              <= Connector.closings (Connector.io st)
                 + size (Connector._connections st))%nat).
Proof.
  assert (Hany : forall keys : list string,
             (forall k, is_Some (Connector._connections st !! k) -> k ∈ keys) ->
             exists st' : Connector.state,
               Connector.disconnect_keys keys st = (Returns tt, st')
               /\ Connector._connections st' = ∅
               /\ (Connector.closings (Connector.io st')
                   <= Connector.closings (Connector.io st)
                      + size (Connector._connections st))%nat).
  { intros keys Hcover.
    destruct (disconnect_keys_result keys st) as (st' & Heq & Hdom & _ & Hcount).
    exists st'. split; [exact Heq|]. split; [|lia].
    apply dom_empty_inv_L. rewrite Hdom.
    apply set_eq. intros k. split; [|set_solver].
    rewrite elem_of_difference, elem_of_dom, elem_of_list_to_set.
    intros [Hk Hnot]. destruct Hnot. apply Hcover, Hk. }
  split; [|exact Hany].
  apply Hany. intros k Hk. apply elem_of_elements, elem_of_dom, Hk.
Qed.

Lemma disconnect_all_empties_witness :
  exists st' : Connector.state,
    Connector.disconnect_keys [Fixtures.other_mac; Fixtures.test_mac]
      Fixtures.two_connections = (Returns tt, st')
    /\ Connector._connections st' = ∅
    /\ (Connector.closings (Connector.io st') <= 0 + 2)%nat.
Proof.
  apply (proj2 (disconnect_all_empties Fixtures.two_connections)
           [Fixtures.other_mac; Fixtures.test_mac]).
  intros k [c Hc].
  destruct (decide (k = Fixtures.test_mac)) as [->|Hne1]; [set_solver|].
  destruct (decide (k = Fixtures.other_mac)) as [->|Hne2]; [set_solver|].
  unfold Fixtures.two_connections in Hc. cbn [Connector._connections] in Hc.
  rewrite lookup_insert_ne in Hc by congruence.
  rewrite lookup_singleton_ne in Hc by congruence. discriminate.
Defined.

(** ** The manager *)

Section ManagerFacts.

Import BluetoothManager.

Variable cfg : Connector.config.
Variable tr : Connector.transport.

Lemma untracked_note (n : notice) (m : manager) :
  is_connected_notice n = false -> untracked m -> untracked (note n m).
Proof.
  intros Hn [Hd Hf]. split; [exact Hd|]. cbn [note notices].
  rewrite forallb_app, Hf. cbn. rewrite Hn. reflexivity.
Qed.

Lemma connect_device_untracked (mac : string) (m : manager) :
  untracked m -> untracked (connect_device cfg tr mac m).2.
Proof.
  intros [Hd Hf]. unfold connect_device.
  destruct (Connector.connect cfg tr mac None (connector (core m)))
    as [[[|]|e] cs]; cbn [snd]; try (split; assumption).
  destruct (_on_device_connected _); [|split; assumption].
  unfold _get_device_info. cbn [with_core _connected_devices].
  rewrite Hd, lookup_empty. split; assumption.
Qed.

Lemma disconnect_device_untracked (mac : string) (m : manager) :
  untracked m -> untracked (disconnect_device mac m).2.
Proof.
  intros [Hd Hf]. unfold disconnect_device.
  destruct (Connector.disconnect mac (connector (core m)))
    as [[[|]|e] cs]; cbn [snd]; try (split; assumption).
  assert (untracked
            (with_devices (delete mac (_connected_devices m))
               (with_core {| connector := cs;
                             data_handler := data_handler (core m) |} m)))
    as Hu.
  { split; [|exact Hf]. cbn [with_devices with_core _connected_devices].
    rewrite Hd. apply delete_empty. }
  cbn [with_core with_devices _connected_devices _on_device_disconnected] in *.
  destruct (_on_device_disconnected m); [|exact Hu].
  cbn [snd]. apply (untracked_note (DeviceDisconnected mac)); [reflexivity|].
  exact Hu.
Qed.

Lemma disconnect_devices_untracked (keys : list string) (m : manager) :
  untracked m -> untracked (disconnect_devices keys m).2.
Proof.
  revert m. induction keys as [|k keys IH]; intros m Hu; [exact Hu|].
  cbn [disconnect_devices].
  pose proof (disconnect_device_untracked k m Hu) as Hu'.
  destruct (disconnect_device k m) as [[b|e] m']; cbn [snd] in *.
  - apply IH, Hu'.
  - exact Hu'.
Qed.

Lemma after_untracked (c : call) (m : manager) :
  untracked m -> untracked (after cfg tr c m).
Proof.
  intros Hu. destruct c; cbn [after].
  - apply connect_device_untracked, Hu.
  - apply disconnect_device_untracked, Hu.
  - unfold manager_send_data.
    destruct (send_data device_mac data (core m)). exact Hu.
  - unfold receive_data.
    destruct (negb (is_connected device_mac (core m))); [exact Hu|].
    destruct (DataHandler.receive _ _ _ _) as [[[[|b d]|]|e] dh];
      try exact Hu.
    cbn [with_core _on_data_received].
    destruct (_on_data_received m); [|exact Hu].
    apply (untracked_note (DataArrived device_mac (b :: d))); [reflexivity|].
    exact Hu.
  - apply disconnect_devices_untracked, Hu.
  - exact Hu.
  - exact Hu.
  - exact Hu.
  - exact Hu.
  - exact Hu.
  - exact Hu.
  - exact Hu.
Qed.

Lemma after_all_untracked (calls : list call) :
  untracked (after_all cfg tr calls).
Proof.
  unfold after_all.
  assert (forall m, untracked m ->
                    untracked (fold_left (fun m c => after cfg tr c m) calls m))
    as H.
  { induction calls as [|c calls IH]; intros m Hu; [exact Hu|].
    cbn [fold_left]. apply IH, after_untracked, Hu. }
  apply H. split; reflexivity.
Qed.

End ManagerFacts.

(** X23.  After any sequence of calls on a new manager (connecting,
    disconnecting, sending, receiving, cleaning up, setting observers,
    starting and stopping listeners), [_connected_devices] is empty: no
    method ever fills it.  So [get_connected_devices] returns the empty
    list and the device-connected observer has never been called. *)
Theorem connected_devices_stay_empty (cfg : Connector.config)
    (tr : Connector.transport) (calls : list BluetoothManager.call) :
  BluetoothManager._connected_devices (BluetoothManager.after_all cfg tr calls)
  = ∅
  /\ BluetoothManager.get_connected_devices
       (BluetoothManager.after_all cfg tr calls) = []
  /\ forallb (fun n => negb (BluetoothManager.is_connected_notice n))
       (BluetoothManager.notices (BluetoothManager.after_all cfg tr calls))
     = true.
Proof.
  destruct (after_all_untracked cfg tr calls) as [Hd Hf].
  split; [exact Hd|]. split; [|exact Hf].
  unfold BluetoothManager.get_connected_devices.
  rewrite Hd, map_to_list_empty. reflexivity.
Qed.

(** X24.  After any sequence of calls on a new manager,
    [BluetoothManager.cleanup] returns and changes nothing: it walks over
    [_connected_devices], which is empty, so every connection the
    connector holds stays open. *)
Theorem manager_cleanup_disconnects_nothing (cfg : Connector.config)
    (tr : Connector.transport) (calls : list BluetoothManager.call) :
  BluetoothManager.cleanup (BluetoothManager.after_all cfg tr calls)
  = (Returns tt, BluetoothManager.after_all cfg tr calls).
Proof.
  destruct (after_all_untracked cfg tr calls) as [Hd _].
  unfold BluetoothManager.cleanup.
  rewrite Hd, dom_empty_L, elements_empty. reflexivity.
Qed.

Example ex_cleanup_leaves_connection :
  BluetoothManager.is_connected Fixtures.test_mac
    (BluetoothManager.core
       (BluetoothManager.after_all Connector.default_config
          Fixtures.ready_transport
          [BluetoothManager.ConnectDevice Fixtures.test_mac;
           BluetoothManager.Cleanup]))
  = true.
Proof. reflexivity. Qed.

(** X25.  For an address that is not connected, [receive_data] returns
    [None] and [disconnect_device] returns [False], and neither changes
    the manager: no queue is read, no transport call is made and no
    observer is called. *)
Theorem manager_refuses_unconnected (mac : string) (size timeout : Z)
    (m : BluetoothManager.manager) :
  BluetoothManager.is_connected mac (BluetoothManager.core m) = false ->
  BluetoothManager.receive_data mac size timeout m = (Returns None, m)
  /\ BluetoothManager.disconnect_device mac m = (Returns false, m).
Proof.
  intros H. split.
  - unfold BluetoothManager.receive_data. rewrite H. reflexivity.
  - unfold BluetoothManager.disconnect_device, Connector.disconnect.
    unfold BluetoothManager.is_connected in H. rewrite H. cbn [negb].
    destruct m as [[cs dh] ds oc od odr ns]. reflexivity.
Qed.

Lemma manager_refuses_unconnected_witness :
  BluetoothManager.receive_data Fixtures.test_mac 1024 5
    BluetoothManager.new_manager
  = (Returns None, BluetoothManager.new_manager)
  /\ BluetoothManager.disconnect_device Fixtures.test_mac
       BluetoothManager.new_manager
     = (Returns false, BluetoothManager.new_manager).
Proof.
  apply (manager_refuses_unconnected Fixtures.test_mac 1024 5
           BluetoothManager.new_manager).
  reflexivity.
Defined.

(** X26.  [disconnect_device] of a connected address with a
    device-disconnected observer: the connector drops the connection, the
    observer is called once with the address, and the call returns [True],
    or raises what the observer raises, the connection being gone
    already. *)
Theorem disconnect_device_notifies (mac : string) (cb : string -> bool)
    (m : BluetoothManager.manager) :
  BluetoothManager.is_connected mac (BluetoothManager.core m) = true ->
  BluetoothManager._on_device_disconnected m = Some cb ->
  (BluetoothManager.disconnect_device mac m).1
  = (if cb mac then Raises CallbackError else Returns true)
  /\ BluetoothManager.is_connected mac
       (BluetoothManager.core (BluetoothManager.disconnect_device mac m).2)
     = false
  /\ BluetoothManager.notices (BluetoothManager.disconnect_device mac m).2
     = BluetoothManager.notices m ++ [BluetoothManager.DeviceDisconnected mac].
Proof.
  intros Hcon Hcb. unfold BluetoothManager.is_connected in Hcon.
  apply is_connected_lookup in Hcon.
  unfold BluetoothManager.disconnect_device.
  destruct (disconnect_removes mac _ Hcon) as (log & -> & _).
  cbn [BluetoothManager.with_core BluetoothManager.with_devices
       BluetoothManager._on_device_disconnected
       BluetoothManager._connected_devices].
  rewrite Hcb. cbn [fst snd].
  split; [reflexivity|]. split; [|reflexivity].
  unfold BluetoothManager.is_connected. cbn.
  apply not_connected_lookup. cbn. apply lookup_delete_eq.
Qed.

Lemma disconnect_device_notifies_witness :
  (BluetoothManager.disconnect_device Fixtures.test_mac
     Fixtures.manager_with_connection).1 = Raises CallbackError
  /\ BluetoothManager.is_connected Fixtures.test_mac
       (BluetoothManager.core
          (BluetoothManager.disconnect_device Fixtures.test_mac
             Fixtures.manager_with_connection).2)
     = false
  /\ BluetoothManager.notices
       (BluetoothManager.disconnect_device Fixtures.test_mac
          Fixtures.manager_with_connection).2
     = [BluetoothManager.DeviceDisconnected Fixtures.test_mac].
Proof.
  apply (disconnect_device_notifies Fixtures.test_mac
           Fixtures.raising_disconnect_observer
           Fixtures.manager_with_connection).
  - reflexivity.
  - reflexivity.
Defined.

(** X27.  [stop_listening] undoes [start_listening]: for a device with no
    listener and no queue, starting and then stopping gives the queues and
    the threads back as they were. *)
Theorem start_then_stop_listening (mac : string) (st : DataHandler.state) :
  mac ∉ DataHandler._receive_threads st ->
  DataHandler._receive_queues st !! mac = None ->
  DataHandler._receive_queues
    (DataHandler.stop_listening mac (DataHandler.start_listening mac st))
  = DataHandler._receive_queues st
  /\ DataHandler._receive_threads
       (DataHandler.stop_listening mac (DataHandler.start_listening mac st))
     = DataHandler._receive_threads st.
Proof.
  intros Hthread Hqueue. unfold DataHandler.start_listening.
  rewrite bool_decide_eq_false_2 by exact Hthread.
  cbn. split.
  - apply delete_insert_id. exact Hqueue.
  - set_solver.
Qed.

Lemma start_then_stop_listening_witness :
  DataHandler._receive_queues
    (DataHandler.stop_listening Fixtures.test_mac
       (DataHandler.start_listening Fixtures.test_mac DataHandler.init))
  = ∅
  /\ DataHandler._receive_threads
       (DataHandler.stop_listening Fixtures.test_mac
          (DataHandler.start_listening Fixtures.test_mac DataHandler.init))
     = ∅.
Proof.
  apply (start_then_stop_listening Fixtures.test_mac DataHandler.init).
  - apply not_elem_of_empty.
  - reflexivity.
Defined.

Lemma short_frame_outcome_witness :
  unpack_data [x01; x02; x03; x00] true true = Returns (Some [])
  /\ unpack_data [x01; x02; x03; x04] true true = Returns None
  /\ unpack_data [x00; x00; x00] true true = Returns None
  /\ unpack_data [] true false = Returns None.
Proof.
  split; [|split; [|split]].
  - apply (proj1 (short_frame_outcome [x01; x02; x03; x00] true true
                    ltac:(vm_compute; reflexivity))).
    repeat split.
  - apply (proj2 (short_frame_outcome [x01; x02; x03; x04] true true
                    ltac:(vm_compute; reflexivity))).
    intros (_ & _ & _ & H). vm_compute in H. discriminate.
  - apply (proj2 (short_frame_outcome [x00; x00; x00] true true
                    ltac:(vm_compute; reflexivity))).
    intros (_ & _ & H & _). vm_compute in H. discriminate.
  - apply (proj2 (short_frame_outcome [] true false
                    ltac:(vm_compute; reflexivity))).
    intros (_ & H & _). discriminate.
Defined.
